(** * Freshmaker scraper: the ingestion pipeline of [scrapers/freshmaker.py]

    A shallow embedding of [FreshmakerScraper] and the properties of its
    pagination loop, its event and build filters, the task-to-build
    resolution and the label repair of container builds.

    Python values coming from JSON are the type [pyval]; exceptions are the
    type [exn]; the scraper's methods are computations in a state-and-error
    monad over the graph store and a log of the external calls made. *)

From stdpp Require Import base option list gmap strings pretty.
From Stdlib Require Import ZArith Ascii String Lia.
From Stdlib Require Import Floats.SpecFloat.

Set Warnings "-register-all".
Local Open Scope string_scope.
Local Open Scope Z_scope.
Local Open Scope list_scope.

(* ===================================================================== *)
(** ** Python values and the built-ins the scraper applies to them *)
(* ===================================================================== *)

(** The values [requests]' [.json()] and the Teiid client hand to the
    scraper: what [json.loads] makes of a JSON document.  A number written
    without fraction and exponent is an [int]; any other number is a
    [float], given by its sign, mantissa and exponent, and [json.loads]
    reads [NaN], [Infinity] and [-Infinity] too.  Text is the sequence of
    its code points, which are below 256 here.  A JSON object is an
    association list whose first binding of a key is the one subscripting
    sees. *)
Inductive pyval : Type :=
| PNone
| PBool (b : bool)
| PInt (z : Z)
| PFloat (f : spec_float)
| PStr (s : string)
| PList (l : list pyval)
| PDict (d : list (string * pyval)).

(** The exception classes the scraper raises, catches or lets through. *)
Inductive exn : Type :=
| ValueError
| TypeError
| OverflowError
| KeyError
| IndexError
| AttributeError
| ParseError
| ConstraintValidationFailed
| StoreError
| TransportError
| JSONDecodeError.

#[global] Instance exn_eq_dec : EqDecision exn.
Proof. solve_decision. Defined.

(** The result of evaluating an expression that has no effect on the store. *)
Inductive res (A : Type) : Type :=
| Val (a : A)
| Exc (e : exn).
Arguments Val {A} a.
Arguments Exc {A} e.

(** [bool(v)]: Python truthiness. *)
Definition py_truthy (v : pyval) : bool :=
  match v with
  | PNone => false
  | PBool b => b
  | PInt z => negb (z =? 0)
  | PFloat f => match f with S754_zero _ => false | _ => true end
  | PStr s => negb (String.eqb s "")
  | PList l => match l with [] => false | _ => true end
  | PDict d => match d with [] => false | _ => true end
  end.

Fixpoint assoc_get {A : Type} (k : string) (d : list (string * A)) : option A :=
  match d with
  | [] => None
  | (k', v) :: d' => if String.eqb k k' then Some v else assoc_get k d'
  end.

(** [v[key]] for a string key. *)
Definition py_getitem (v : pyval) (key : string) : res pyval :=
  match v with
  | PDict d => match assoc_get key d with Some x => Val x | None => Exc KeyError end
  | _ => Exc TypeError
  end.

(** [v[0]]. *)
Definition py_getitem0 (v : pyval) : res pyval :=
  match v with
  | PList l => match l with x :: _ => Val x | [] => Exc IndexError end
  | PStr s => match s with String c _ => Val (PStr (String c EmptyString)) | EmptyString => Exc IndexError end
  | PDict _ => Exc KeyError
  | _ => Exc TypeError
  end.

(** [v.get(key)]: only dictionaries have the method. *)
Definition py_get (v : pyval) (key : string) : res pyval :=
  match v with
  | PDict d => match assoc_get key d with Some x => Val x | None => Val PNone end
  | _ => Exc AttributeError
  end.

(** The sequence a [for] loop walks over. *)
Definition py_iter (v : pyval) : res (list pyval) :=
  match v with
  | PList l => Val l
  | PDict d => Val (map (fun kv => PStr (fst kv)) d)
  | PStr s => Val (map (fun c => PStr (String c EmptyString)) (list_ascii_of_string s))
  | _ => Exc TypeError
  end.

(** *** [int(s)] on text

    CPython turns the white space above the ASCII range into blanks (below
    256 these are the code points 133 and 160), skips the ASCII white space
    (9 to 13, and 32) at both ends, and reads one sign and the decimal
    digits, which may be grouped by single underscores.  The code points 28
    to 31 are white space for [str.strip] but not for [int]. *)
Definition is_space (c : ascii) : bool :=
  let n := nat_of_ascii c in
  (((9 <=? n) && (n <=? 13)) || (n =? 32) || (n =? 133) || (n =? 160))%nat.

Definition digit_val (c : ascii) : option Z :=
  let n := nat_of_ascii c in
  if ((48 <=? n) && (n <=? 57))%nat then Some (Z.of_nat n - 48) else None.

Fixpoint drop_spaces (l : list ascii) : list ascii :=
  match l with
  | c :: l' => if is_space c then drop_spaces l' else l
  | [] => []
  end.

Definition py_strip (l : list ascii) : list ascii :=
  rev (drop_spaces (rev (drop_spaces l))).

(** [after_digit] tells whether the previous character was a digit, which is
    where an underscore may stand; the literal must end on a digit. *)
Fixpoint digits_value (acc : Z) (after_digit : bool) (l : list ascii) : option Z :=
  match l with
  | [] => if after_digit then Some acc else None
  | c :: l' =>
      match digit_val c with
      | Some d => digits_value (10 * acc + d) true l'
      | None =>
          if (Ascii.eqb c "_"%char && after_digit)%bool
          then match l' with
               | [] => None
               | _ => digits_value acc false l'
               end
          else None
      end
  end.

(** The number of digits [int] converts from decimal text: a text with more
    digits is refused with a [ValueError].  The bound is the default of
    [sys.get_int_max_str_digits()] in CPython 3.11 and later. *)
Definition max_str_digits : nat := 4300.

Definition count_digits (l : list ascii) : nat :=
  List.length (filter (fun c => is_Some (digit_val c)) l).

Definition bounded_digits_value (l : list ascii) : option Z :=
  if (max_str_digits <? count_digits l)%nat then None else digits_value 0 false l.

Definition int_of_text (s : string) : option Z :=
  match py_strip (list_ascii_of_string s) with
  | c :: l =>
      if Ascii.eqb c "-"%char then Z.opp <$> bounded_digits_value l
      else if Ascii.eqb c "+"%char then bounded_digits_value l
      else bounded_digits_value (c :: l)
  | [] => None
  end.

(** [int(f)] for a float: the value cut off towards zero; [NaN] is a
    [ValueError] and an infinity an [OverflowError]. *)
Definition int_of_float (f : spec_float) : res Z :=
  match f with
  | S754_zero _ => Val 0
  | S754_infinity _ => Exc OverflowError
  | S754_nan => Exc ValueError
  | S754_finite s m e =>
      let a := Z.shiftl (Z.pos m) e in
      Val (if s then - a else a)
  end.

(** [int(v)]. *)
Definition py_int (v : pyval) : res Z :=
  match v with
  | PInt z => Val z
  | PBool b => Val (if b then 1 else 0)
  | PFloat f => int_of_float f
  | PStr s => match int_of_text s with Some z => Val z | None => Exc ValueError end
  | PNone | PList _ | PDict _ => Exc TypeError
  end.

(** Modelled from the spec: the text under which the store keeps an
    identity ("integer/string").  Integers are kept in decimal, text as it
    is; floats, arrays and objects are no identities. *)
Definition py_str (v : pyval) : option string :=
  match v with
  | PNone => Some "None"
  | PBool b => Some (if b then "True" else "False")
  | PInt z => Some (pretty z)
  | PStr s => Some s
  | PFloat _ | PList _ | PDict _ => None
  end.

(* ===================================================================== *)
(** ** Element trees and the path query of [xml.etree.ElementTree] *)
(* ===================================================================== *)

(** An element: its tag, the text before its first child, its children and
    the text that follows its end tag. *)
Inductive element : Type :=
| Element (tag : string) (text : option string) (children : list element) (tail : option string).

Definition e_tag (e : element) : string := match e with Element t _ _ _ => t end.
Definition e_text (e : element) : option string := match e with Element _ t _ _ => t end.
Definition e_children (e : element) : list element := match e with Element _ _ c _ => c end.
Definition e_tail (e : element) : option string := match e with Element _ _ _ t => t end.

(** [if t: yield t] *)
Definition text_chunk (t : option string) : list string :=
  match t with
  | Some s => if String.eqb s "" then [] else [s]
  | None => []
  end.

(** [Element.itertext()] *)
Fixpoint itertext (e : element) : list string :=
  match e with
  | Element _ t cs _ =>
      text_chunk t ++
      (fix over (l : list element) : list string :=
         match l with
         | [] => []
         | c :: l' => itertext c ++ text_chunk (e_tail c) ++ over l'
         end) cs
  end.

Definition tag_matches (tag : string) (e : element) : bool :=
  String.eqb tag "*" || String.eqb (e_tag e) tag.

(** [Element.iter(tag)]: the element itself when its tag matches, then its
    descendants, in document order. *)
Fixpoint iter (tag : string) (e : element) : list element :=
  match e with
  | Element _ _ cs _ =>
      (if tag_matches tag e then [e] else []) ++
      (fix over (l : list element) : list element :=
         match l with
         | [] => []
         | c :: l' => iter tag c ++ over l'
         end) cs
  end.

(** The selectors of [ElementPath] that the scraper's path is made of; each
    maps the sequence of elements selected so far to the next one. *)
Definition select_self (result : list element) : list element := result.

(** [//tag]: [for elem in result: for e in elem.iter(tag): if e is not elem: yield e] *)
Definition select_descendant (tag : string) (result : list element) : list element :=
  flat_map (fun elem => flat_map (iter tag) (e_children elem)) result.

(** [elem.findall(tag)] for a plain tag: the children with that tag. *)
Definition findall_children (tag : string) (elem : element) : list element :=
  filter (fun e => e_tag e = tag) (e_children elem).

(** [[tag='value']]: keep the elements that have a child [tag] whose whole
    text is [value]. *)
Definition select_tag_text (tag value : string) (result : list element) : list element :=
  filter (fun elem => Exists (fun e => String.concat "" (itertext e) = value) (findall_children tag elem))
         result.

(** [xml_root.find(".//*[name='koji_builds'].//string")]: the selectors of
    the path applied in turn to [[xml_root]], and the first element left. *)
Definition find_koji_builds_string (xml_root : element) : option element :=
  head (select_descendant "string"
         (select_self
           (select_tag_text "name" "koji_builds"
             (select_descendant "*"
               (select_self [xml_root]))))).

(* ===================================================================== *)
(** ** The graph store interface and the other collaborators *)
(* ===================================================================== *)

(** The node classes of [estuary.models] the scraper names. *)
Inductive model : Type :=
| FreshmakerEvent
| Advisory
| KojiBuild
| ContainerKojiBuild.

#[global] Instance model_eq_dec : EqDecision model.
Proof. solve_decision. Defined.

(** [cls.__label__] *)
Definition label_of (m : model) : string :=
  match m with
  | FreshmakerEvent => "FreshmakerEvent"
  | Advisory => "Advisory"
  | KojiBuild => "KojiBuild"
  | ContainerKojiBuild => "ContainerKojiBuild"
  end.

(** The relationships of a [FreshmakerEvent]. *)
Inductive relationship : Type :=
| triggered_by_advisory
| triggered_container_builds.

#[global] Instance relationship_eq_dec : EqDecision relationship.
Proof. solve_decision. Defined.

(** A keyword dictionary handed to the store, such as
    [dict(id_=..., state=...)]. *)
Definition params : Type := list (string * pyval).

(** What the scraper calls outside itself, over any store state [G]:
    the HTTP session, the Teiid client, the XML parser and the operations of
    the node classes.  A node is handed around by its internal number. *)
Record services (G : Type) : Type := {
  (** [session.get(url, timeout=15).json()] *)
  session_get_json : pyval -> res pyval;
  (** [self.teiid.query(sql=...)] for the query built from a task id *)
  teiid_query : pyval -> res pyval;
  (** [ET.fromstring(text)] *)
  ET_fromstring : pyval -> res element;
  (** [cls.create_or_update(params)[0]] *)
  create_or_update : model -> params -> G -> res nat * G;
  (** [cls.get_or_create(params)[0]] *)
  get_or_create : model -> params -> G -> res nat * G;
  (** [cls.nodes.get_or_none(id_=...)] *)
  get_or_none : model -> pyval -> G -> res (option nat) * G;
  (** [node.add_label(label)] *)
  add_label : nat -> string -> G -> res unit * G;
  (** [node.rel.connect(other)] *)
  connect : relationship -> nat -> nat -> G -> res unit * G;
  (** [node.conditional_connect(node.rel, other)] *)
  conditional_connect : relationship -> nat -> nat -> G -> res unit * G
}.
Arguments session_get_json {G} _ _.
Arguments teiid_query {G} _ _.
Arguments ET_fromstring {G} _ _.
Arguments create_or_update {G} _ _ _ _.
Arguments get_or_create {G} _ _ _ _.
Arguments get_or_none {G} _ _ _ _.
Arguments add_label {G} _ _ _ _.
Arguments connect {G} _ _ _ _ _.
Arguments conditional_connect {G} _ _ _ _ _.

(** The calls that leave the process, as they are logged. *)
Inductive call : Type :=
| Call_get (url : pyval)
| Call_teiid (task_id : pyval)
| Call_create_or_update (m : model) (p : params)
| Call_get_or_create (m : model) (p : params)
| Call_get_or_none (m : model) (id_ : pyval)
| Call_add_label (n : nat) (l : string)
| Call_connect (r : relationship) (src dst : nat)
| Call_conditional_connect (r : relationship) (src dst : nat).

(* ===================================================================== *)
(** ** The monad of the scraper: store state, call log, exceptions *)
(* ===================================================================== *)

Record world (G : Type) : Type := World { store : G; calls : list call }.
Arguments World {G} _ _.
Arguments store {G} _.
Arguments calls {G} _.

(** How a computation ends: with a value, with a Python exception, or, for
    the paging loop, with its fuel spent before the loop was left. *)
Inductive outcome (A : Type) : Type :=
| Ok (a : A)
| Raise (e : exn)
| OutOfFuel.
Arguments Ok {A} a.
Arguments Raise {A} e.
Arguments OutOfFuel {A}.

Definition M (G A : Type) : Type := world G -> outcome A * world G.

Definition ret {G A} (a : A) : M G A := fun w => (Ok a, w).

Definition bind {G A B} (m : M G A) (k : A -> M G B) : M G B :=
  fun w =>
    match m w with
    | (Ok a, w') => k a w'
    | (Raise e, w') => (Raise e, w')
    | (OutOfFuel, w') => (OutOfFuel, w')
    end.

Notation "x <- m ;; k" := (bind m (fun x => k))
  (at level 100, m at next level, right associativity).
Notation "m ;;; k" := (bind m (fun _ => k))
  (at level 100, right associativity).

(** [raise e] *)
Definition raise {G A} (e : exn) : M G A := fun w => (Raise e, w).

Definition out_of_fuel {G A} : M G A := fun w => (OutOfFuel, w).

(** An expression without effect, evaluated in place. *)
Definition lift {G A} (r : res A) : M G A :=
  fun w => match r with Val a => (Ok a, w) | Exc e => (Raise e, w) end.

(** [try: m  except <classes>: handler]; what [m] did to the store before
    it raised stays done. *)
Definition try_except {G A} (m : M G A) (caught : exn -> bool) (handler : M G A) : M G A :=
  fun w =>
    match m w with
    | (Raise e, w') => if caught e then handler w' else (Raise e, w')
    | r => r
    end.

(** A call to a read-only collaborator: logged, then answered. *)
Definition call_ext {G A} (c : call) (r : res A) : M G A :=
  fun w => lift r (World (store w) (calls w ++ [c])).

(** A call to the store: logged, then run on the store's state. *)
Definition call_store {G A} (c : call) (op : G -> res A * G) : M G A :=
  fun w =>
    let (r, g') := op (store w) in
    lift r (World g' (calls w ++ [c])).

(** [for x in l: body(x)]; a [continue] in the body is the body's return. *)
Fixpoint for_each {G A} (l : list A) (body : A -> M G unit) : M G unit :=
  match l with
  | [] => ret tt
  | x :: l' => body x ;;; for_each l' body
  end.

(* ===================================================================== *)
(** ** [FreshmakerScraper] *)
(* ===================================================================== *)

(** [freshmaker_url] *)
Definition freshmaker_url : string :=
  "https://freshmaker.engineering.redhat.com/api/1/events/?per_page=100".

(** [bool(t)] for the text of an element. *)
Definition text_truthy (t : option string) : bool :=
  match t with
  | Some s => negb (String.eqb s "")
  | None => false
  end.

Section Scraper.
Context {G : Type} (S : services G).

(** [get_koji_task_result(self, task_id)] *)
Definition get_koji_task_result (task_id : pyval) : M G pyval :=
  try_except
    (rows <- call_ext (Call_teiid task_id) (teiid_query S task_id) ;;
     row <- lift (py_getitem0 rows) ;;
     lift (py_getitem row "result"))
    (fun e => bool_decide (e = IndexError) || bool_decide (e = KeyError))
    (ret PNone).

(** Lines 84-87: the text of the first match of the path, [None] when
    [find] gave no element. *)
Definition extract_build_id (xml_root : element) : M G (option string) :=
  try_except
    (match find_koji_builds_string xml_root with
     | Some e => ret (e_text e)
     | None => raise AttributeError
     end)
    (fun e => bool_decide (e = AttributeError))
    (ret None).

(** Lines 97-108: the typed upsert of the build and the repair of a node
    that carries the [KojiBuild] label only. *)
Definition upsert_container_build (build_params : params) (build_id : pyval) : M G nat :=
  try_except
    (call_store (Call_create_or_update ContainerKojiBuild build_params)
                (create_or_update S ContainerKojiBuild build_params))
    (fun e => bool_decide (e = ConstraintValidationFailed))
    (build <- call_store (Call_get_or_none KojiBuild build_id)
                         (get_or_none S KojiBuild build_id) ;;
     match build with
     | None => raise ConstraintValidationFailed
     | Some b =>
         call_store (Call_add_label b (label_of ContainerKojiBuild))
                    (add_label S b (label_of ContainerKojiBuild)) ;;;
         call_store (Call_create_or_update ContainerKojiBuild build_params)
                    (create_or_update S ContainerKojiBuild build_params)
     end).

(** Line 73: whether the entry is passed over as faulty. *)
Definition faulty_build (build_dict : pyval) : M G bool :=
  b <- lift (py_getitem build_dict "build_id") ;;
  if negb (py_truthy b) then ret true
  else
    b' <- lift (py_getitem build_dict "build_id") ;;
    n <- lift (py_int b') ;;
    ret (n <? 0).

(** The body of the loop over [fm_event['builds']], lines 72-110. *)
Definition process_build (event : nat) (build_dict : pyval) : M G unit :=
  faulty <- faulty_build build_dict ;;
  if faulty then ret tt
  else
    task_id <- lift (py_getitem build_dict "build_id") ;;
    task_result <- get_koji_task_result task_id ;;
    if negb (py_truthy task_result) then ret tt
    else
      xml_root <- lift (ET_fromstring S task_result) ;;
      build_id <- extract_build_id xml_root ;;
      if negb (text_truthy build_id) then ret tt
      else
        let build_id := PStr (default "" build_id) in
        original_nvr <- lift (py_getitem build_dict "original_nvr") ;;
        let build_params := [("id_", build_id); ("original_nvr", original_nvr)] in
        build <- upsert_container_build build_params build_id ;;
        call_store (Call_connect triggered_container_builds event build)
                   (connect S triggered_container_builds event build).

(** Lines 48-52: whether [int(fm_event['search_key'])] went through. *)
Definition search_key_is_int (fm_event : pyval) : M G bool :=
  try_except
    (k <- lift (py_getitem fm_event "search_key") ;;
     lift (py_int k) ;;;
     ret true)
    (fun e => bool_decide (e = ValueError))
    (ret false).

(** The keyword dictionary of lines 54-62. *)
Definition event_params (fm_event : pyval) : M G params :=
  id_ <- lift (py_getitem fm_event "id") ;;
  event_type_id <- lift (py_getitem fm_event "event_type_id") ;;
  message_id <- lift (py_getitem fm_event "message_id") ;;
  state <- lift (py_getitem fm_event "state") ;;
  state_name <- lift (py_getitem fm_event "state_name") ;;
  state_reason <- lift (py_getitem fm_event "state_reason") ;;
  url <- lift (py_getitem fm_event "url") ;;
  ret [("id_", id_); ("event_type_id", event_type_id); ("message_id", message_id);
       ("state", state); ("state_name", state_name); ("state_reason", state_reason);
       ("url", url)].

(** The body of the loop over [rv_json['items']], lines 48-110. *)
Definition process_event (fm_event : pyval) : M G unit :=
  is_int <- search_key_is_int fm_event ;;
  if negb is_int then ret tt
  else
    lift (py_getitem fm_event "id") ;;;
    p <- event_params fm_event ;;
    event <- call_store (Call_create_or_update FreshmakerEvent p)
                        (create_or_update S FreshmakerEvent p) ;;
    lift (py_getitem fm_event "search_key") ;;;
    search_key <- lift (py_getitem fm_event "search_key") ;;
    advisory <- call_store (Call_get_or_create Advisory [("id_", search_key)])
                           (get_or_create S Advisory [("id_", search_key)]) ;;
    call_store (Call_conditional_connect triggered_by_advisory event advisory)
               (conditional_connect S triggered_by_advisory event advisory) ;;;
    builds <- lift (py_getitem fm_event "builds") ;;
    build_dicts <- lift (py_iter builds) ;;
    for_each build_dicts (process_build event).

(** The [while True] loop of lines 44-115, started at [fm_url]; [fuel]
    bounds the number of pages fetched. *)
Fixpoint scrape_from (fuel : nat) (fm_url : pyval) : M G unit :=
  match fuel with
  | O => out_of_fuel
  | Datatypes.S fuel' =>
      rv_json <- call_ext (Call_get fm_url) (session_get_json S fm_url) ;;
      items <- lift (py_getitem rv_json "items") ;;
      fm_events <- lift (py_iter items) ;;
      for_each fm_events process_event ;;;
      meta <- lift (py_getitem rv_json "meta") ;;
      next <- lift (py_get meta "next") ;;
      if py_truthy next then
        meta' <- lift (py_getitem rv_json "meta") ;;
        fm_url' <- lift (py_getitem meta' "next") ;;
        scrape_from fuel' fm_url'
      else ret tt
  end.

(** [query_api_and_update_neo4j(self)] *)
Definition query_api_and_update_neo4j (fuel : nat) : M G unit :=
  scrape_from fuel (PStr freshmaker_url).

(** [run(self, since=None, until=None)]: the two arguments are only
    reported as ignored. *)
Definition run (fuel : nat) (since until : pyval) : M G unit :=
  query_api_and_update_neo4j fuel.

End Scraper.

(* ===================================================================== *)
(** ** A graph store *)
(* ===================================================================== *)

(** Modelled from the spec: the graph store client and the node classes of
    [estuary.models] are not part of the scraper's file.  The store keeps
    nodes (labels, identity, attributes) and relationships; a typed
    create-or-update matches on the labels of the type and the identity,
    updates in place or creates, and enforces uniqueness of an identity per
    declared type; connecting is idempotent; every [ContainerKojiBuild] is
    also a [KojiBuild]. *)
Record node : Type := Node {
  n_labels : list string;
  n_id : string;
  n_props : gmap string pyval
}.

Record graph : Type := Graph {
  nodes : list node;
  rels : list (relationship * nat * nat)
}.

Definition empty_graph : graph := Graph [] [].

(** Modelled from the spec: the labels a node of a type carries ("every
    ContainerBuild is also a Build"). *)
Definition inherited_labels (m : model) : list string :=
  match m with
  | ContainerKojiBuild => [label_of KojiBuild; label_of ContainerKojiBuild]
  | _ => [label_of m]
  end.

(** The node is of the type with labels [ls] and has identity [key]. *)
Definition has_labels (ls : list string) (key : string) (n : node) : Prop :=
  n_id n = key ∧ Forall (fun l => l ∈ n_labels n) ls.

(** The node holds identity [key] under one of the labels [ls]. *)
Definition claims (ls : list string) (key : string) (n : node) : Prop :=
  n_id n = key ∧ Exists (fun l => l ∈ n_labels n) ls.

#[global] Instance has_labels_dec ls key n : Decision (has_labels ls key n).
Proof. unfold has_labels. apply _. Defined.

#[global] Instance claims_dec ls key n : Decision (claims ls key n).
Proof. unfold claims. apply _. Defined.

(** The identity in a keyword dictionary, as the store keeps it. *)
Definition identity (p : params) : option string :=
  match assoc_get "id_" p with
  | Some v => py_str v
  | None => None
  end.

(** The attributes in a keyword dictionary, the identity apart. *)
Definition attributes (p : params) : gmap string pyval :=
  list_to_map (filter (fun kv => kv.1 ≠ "id_") p).

Definition set_props (a : gmap string pyval) (n : node) : node :=
  Node (n_labels n) (n_id n) (a ∪ n_props n).

(** Modelled from the spec: typed create-or-update ([update = true]) and
    get-or-create ([update = false]) of the graph store client.  A node of
    the type with that identity is updated in place (or left as it is);
    without one a node is created, unless a node already holds the identity
    under one of the type's labels, which is a constraint violation. *)
Definition store_merge (update : bool) (m : model) (p : params) (g : graph) : res nat * graph :=
  match identity p with
  | None => (Exc StoreError, g)
  | Some key =>
      let ls := inherited_labels m in
      match list_find (has_labels ls key) (nodes g) with
      | Some (i, _) =>
          (Val i,
           if update
           then Graph (map (fun n => if decide (has_labels ls key n)
                                     then set_props (attributes p) n else n) (nodes g))
                      (rels g)
           else g)
      | None =>
          if decide (Exists (claims ls key) (nodes g))
          then (Exc ConstraintValidationFailed, g)
          else (Val (List.length (nodes g)),
                Graph (nodes g ++ [Node ls key (attributes p)]) (rels g))
      end
  end.

(** Modelled from the spec: node lookup-by-id-or-none of the graph store
    client. *)
Definition store_get_or_none (m : model) (id_ : pyval) (g : graph) : res (option nat) * graph :=
  match py_str id_ with
  | None => (Exc StoreError, g)
  | Some key => (Val (fst <$> list_find (has_labels (inherited_labels m) key) (nodes g)), g)
  end.

(** Modelled from the spec: label add of the graph store client, under the
    uniqueness constraint of the label. *)
Definition store_add_label (i : nat) (l : string) (g : graph) : res unit * graph :=
  match nodes g !! i with
  | None => (Exc StoreError, g)
  | Some n =>
      if decide (l ∈ n_labels n) then (Val tt, g)
      else if decide (Exists (claims [l] (n_id n)) (nodes g))
           then (Exc ConstraintValidationFailed, g)
           else (Val tt,
                 Graph (<[i := Node (n_labels n ++ [l]) (n_id n) (n_props n)]> (nodes g)) (rels g))
  end.

(** Modelled from the spec: relationship connect of the graph store client
    ("idempotent": a relationship exists at most once per ordered pair and
    kind). *)
Definition store_connect (r : relationship) (a b : nat) (g : graph) : res unit * graph :=
  if decide ((r, a, b) ∈ rels g) then (Val tt, g)
  else (Val tt, Graph (nodes g) (rels g ++ [(r, a, b)])).

(** Modelled from the spec: [conditional_connect] of the node base class in
    [estuary.models], which is not part of the scraper's file ("idempotent
    connect; no-op if already present"). *)
Definition store_conditional_connect (r : relationship) (a b : nat) (g : graph) : res unit * graph :=
  store_connect r a b g.

(* ===================================================================== *)
(** ** An XML reader for the examples *)
(* ===================================================================== *)

(** A reader for the fragment of XML that task results are written in: an
    optional declaration [<?xml version='1.0'?>] at the very start, then
    one element; tags carry ASCII names and no attributes; character data
    holds no reference.  Comments, processing instructions, CDATA sections,
    document types and name spaces are outside the fragment.  On a text of
    the fragment the reader gives the tree that [ET.fromstring] gives, and
    nothing where the parser raises [ParseError].  A text outside the
    fragment is answered with nothing as well, which need not be what the
    parser does; the examples stay inside the fragment. *)
Fixpoint span (p : ascii -> bool) (l : list ascii) : list ascii * list ascii :=
  match l with
  | c :: l' => if p c then let (a, b) := span p l' in (c :: a, b) else ([], l)
  | [] => ([], [])
  end.

(** The white space of XML: blank, tab, line feed, carriage return. *)
Definition is_xml_space (c : ascii) : bool :=
  let n := nat_of_ascii c in
  ((n =? 32) || (n =? 9) || (n =? 10) || (n =? 13))%nat.

Fixpoint drop_xml_spaces (l : list ascii) : list ascii :=
  match l with
  | c :: l' => if is_xml_space c then drop_xml_spaces l' else l
  | [] => []
  end.

(** The ends of lines as the parser reads them: a carriage return, with the
    line feed that follows it if there is one, is a line feed. *)
Fixpoint normalize_newlines (l : list ascii) : list ascii :=
  match l with
  | c :: l' =>
      if (nat_of_ascii c =? 13)%nat
      then match l' with
           | c' :: l'' =>
               if (nat_of_ascii c' =? 10)%nat
               then ascii_of_nat 10 :: normalize_newlines l''
               else ascii_of_nat 10 :: normalize_newlines l'
           | [] => [ascii_of_nat 10]
           end
      else c :: normalize_newlines l'
  | [] => []
  end.

Definition is_name_start (c : ascii) : bool :=
  let n := nat_of_ascii c in
  (((65 <=? n) && (n <=? 90)) || ((97 <=? n) && (n <=? 122)) || (n =? 95))%nat.

Definition is_name_char (c : ascii) : bool :=
  let n := nat_of_ascii c in
  (is_name_start c || ((48 <=? n) && (n <=? 57)) || (n =? 45) || (n =? 46))%nat.

(** Character data: no markup, and of the control characters only the tab
    and the line feed. *)
Definition is_text_char (c : ascii) : bool :=
  let n := nat_of_ascii c in
  (negb (Ascii.eqb c "<" || Ascii.eqb c "&")%char &&
   ((32 <=? n) || (n =? 9) || (n =? 10)))%nat.

(** Whether the text holds the end mark of a CDATA section, which character
    data must not hold. *)
Fixpoint has_cdata_end (l : list ascii) : bool :=
  match l with
  | c :: l' =>
      match l with
      | "]"%char :: "]"%char :: ">"%char :: _ => true
      | _ => has_cdata_end l'
      end
  | [] => false
  end.

Definition read_text (l : list ascii) : option (list ascii * list ascii) :=
  let (txt, r) := span is_text_char l in
  if has_cdata_end txt then None else Some (txt, r).

Definition read_name (l : list ascii) : list ascii * list ascii :=
  match l with
  | c :: _ => if is_name_start c then span is_name_char l else ([], l)
  | [] => ([], [])
  end.

Definition text_of (l : list ascii) : option string :=
  match l with
  | [] => None
  | _ => Some (string_of_list_ascii l)
  end.

(** [read_element] starts after the [<] of a start tag, [read_siblings] at
    the [<] that follows an element's text; both return what is left. *)
Fixpoint read_element (fuel : nat) (inp : list ascii)
  : option (string * option string * list element * list ascii) :=
  match fuel with
  | O => None
  | Datatypes.S fuel' =>
      let (name, r) := read_name inp in
      match name, drop_xml_spaces r with
      | [], _ => None
      | _, "/"%char :: ">"%char :: r' => Some (string_of_list_ascii name, None, [], r')
      | _, ">"%char :: r' =>
          match read_text r' with
          | Some (txt, r2) =>
              match read_siblings fuel' r2 with
              | Some (cs, r3) =>
                  let (cname, r4) := read_name r3 in
                  match drop_xml_spaces r4 with
                  | ">"%char :: r5 =>
                      if decide (cname = name)
                      then Some (string_of_list_ascii name, text_of txt, cs, r5)
                      else None
                  | _ => None
                  end
              | None => None
              end
          | None => None
          end
      | _, _ => None
      end
  end
with read_siblings (fuel : nat) (inp : list ascii) : option (list element * list ascii) :=
  match fuel with
  | O => None
  | Datatypes.S fuel' =>
      match inp with
      | "<"%char :: "/"%char :: r => Some ([], r)
      | "<"%char :: r =>
          match read_element fuel' r with
          | Some (name, txt, cs, r1) =>
              match read_text r1 with
              | Some (tl, r2) =>
                  match read_siblings fuel' r2 with
                  | Some (sibs, r3) => Some (Element name txt cs (text_of tl) :: sibs, r3)
                  | None => None
                  end
              | None => None
              end
          | None => None
          end
      | _ => None
      end
  end.

(** The declaration of the fragment, with one or the other quote. *)
Definition declaration (q : ascii) : list ascii :=
  list_ascii_of_string "<?xml version=" ++ [q] ++ list_ascii_of_string "1.0" ++ [q]
    ++ list_ascii_of_string "?>".

Fixpoint after_prefix (p l : list ascii) : option (list ascii) :=
  match p, l with
  | [], _ => Some l
  | c :: p', c' :: l' => if Ascii.eqb c c' then after_prefix p' l' else None
  | _ :: _, [] => None
  end.

(** Skips the declaration when the text starts with it. *)
Definition skip_declaration (l : list ascii) : list ascii :=
  match after_prefix (declaration "'"%char) l with
  | Some r => r
  | None => default l (after_prefix (declaration (ascii_of_nat 34)) l)
  end.

Definition read_document (s : string) : option element :=
  match drop_xml_spaces (skip_declaration (normalize_newlines (list_ascii_of_string s))) with
  | "<"%char :: r =>
      match read_element (Datatypes.S (List.length r)) r with
      | Some (name, txt, cs, rest) =>
          match drop_xml_spaces rest with
          | [] => Some (Element name txt cs None)
          | _ => None
          end
      | None => None
      end
  | _ => None
  end.

(** [ET.fromstring] over that reader. *)
Definition xml_fromstring (v : pyval) : res element :=
  match v with
  | PStr s => match read_document s with Some e => Val e | None => Exc ParseError end
  | _ => Exc TypeError
  end.

(** The services over the graph store above, for a feed and a task table. *)
Definition store_services (feed teiid : pyval -> res pyval) (parse : pyval -> res element)
  : services graph :=
  {| session_get_json := feed;
     teiid_query := teiid;
     ET_fromstring := parse;
     create_or_update := store_merge true;
     get_or_create := store_merge false;
     get_or_none := store_get_or_none;
     add_label := store_add_label;
     connect := store_connect;
     conditional_connect := store_conditional_connect |}.

(* ===================================================================== *)
(** ** Notions the properties are stated with *)
(* ===================================================================== *)

(** [d] lies strictly below [e] in the tree. *)
Inductive descendant : element -> element -> Prop :=
| descendant_child d e : d ∈ e_children e -> descendant d e
| descendant_deeper d c e : c ∈ e_children e -> descendant d c -> descendant d e.

(** [m] is a field called [name]: it has a [name] child with that text. *)
Definition is_field (name : string) (m : element) : Prop :=
  exists c, c ∈ e_children m /\ e_tag c = "name" /\ String.concat "" (itertext c) = name.

(** The document has no field called [name]. *)
Definition lacks_field (name : string) (root : element) : Prop :=
  forall m, descendant m root -> ~ is_field name m.

(** The fields called [name] hold no [string] entry with text. *)
Definition field_is_empty (name : string) (root : element) : Prop :=
  forall m s, descendant m root -> is_field name m ->
              descendant s m -> e_tag s = "string" -> text_truthy (e_text s) = false.

(** The query service has a row for task [b] whose [result] column is [r]. *)
Definition task_result_is {G} (S : services G) (b r : pyval) : Prop :=
  exists rows row,
    teiid_query S b = Val rows /\ py_getitem0 rows = Val row /\ py_getitem row "result" = Val r.

(** The entry's task id is [b], and the filter on build entries lets it by. *)
Definition passes_filter (build_dict b : pyval) : Prop :=
  py_getitem build_dict "build_id" = Val b /\ py_truthy b = true /\
  exists z, py_int b = Val z /\ 0 <= z.

(** The query service returns no row for task [b]. *)
Definition no_row {G} (S : services G) (b : pyval) : Prop :=
  teiid_query S b = Val (PList []).

(** The first row returned for task [b] has no [result] column. *)
Definition no_result_column {G} (S : services G) (b : pyval) : Prop :=
  exists d rest, teiid_query S b = Val (PList (PDict d :: rest)) /\ assoc_get "result" d = None.

(** The result of task [b] is a document that lacks the [koji_builds]
    field, or whose field is empty. *)
Definition no_build_in_result {G} (S : services G) (b : pyval) : Prop :=
  exists r root,
    task_result_is S b r /\ py_truthy r = true /\ ET_fromstring S r = Val root /\
    (lacks_field "koji_builds" root \/ field_is_empty "koji_builds" root).

(** The entry's task resolves to the build identity [t]: the filter lets
    the entry by, the task has a result that parses, and the path query
    finds [t] in it. *)
Definition resolves_to {G} (S : services G) (build_dict : pyval) (b : pyval) (t : string) : Prop :=
  passes_filter build_dict b /\
  exists r root s,
    task_result_is S b r /\ py_truthy r = true /\ ET_fromstring S r = Val root /\
    find_koji_builds_string root = Some s /\ e_text s = Some t /\ t <> "".

(** The pages of a feed from [fm_url] on, each with its URL and its items:
    every page is served at its URL as an object with an [items] array and a
    [meta] object; the [next] of [meta] is the URL of the page that
    follows, and the last page has none. *)
Fixpoint feed_chain {G} (S : services G) (fm_url : pyval) (pages : list (pyval * list pyval))
  : Prop :=
  match pages with
  | [] => False
  | (u, items) :: rest =>
      u = fm_url /\
      exists d meta,
        session_get_json S fm_url = Val (PDict d) /\
        assoc_get "items" d = Some (PList items) /\
        assoc_get "meta" d = Some (PDict meta) /\
        match rest with
        | [] => py_truthy (default PNone (assoc_get "next" meta)) = false
        | (u', _) :: _ =>
            assoc_get "next" meta = Some u' /\ py_truthy u' = true /\ feed_chain S u' rest
        end
  end.

(** The pages fetched and their items processed, one page after the other. *)
Fixpoint process_pages {G} (S : services G) (pages : list (pyval * list pyval)) : M G unit :=
  match pages with
  | [] => ret tt
  | (u, items) :: rest =>
      call_ext (Call_get u) (Val tt) ;;;
      for_each items (process_event S) ;;;
      process_pages S rest
  end.

(** [m] never ends for want of fuel. *)
Definition terminates {G A} (m : M G A) : Prop :=
  forall w, (m w).1 <> OutOfFuel.

(** The build entry has a null [build_id]. *)
Definition build_id_missing (build_dict : pyval) : Prop :=
  py_getitem build_dict "build_id" = Val PNone.

(** The build entry has a [build_id] below zero. *)
Definition build_id_negative (build_dict : pyval) : Prop :=
  exists z, py_getitem build_dict "build_id" = Val (PInt z) /\ z < 0.

Definition is_fetch (c : call) : Prop :=
  match c with Call_get _ => True | _ => False end.

#[global] Instance is_fetch_dec c : Decision (is_fetch c).
Proof. destruct c; simpl; apply _. Defined.

(** Every run of [m] takes a world to one related to it by [R]. *)
Definition respects {G A} (R : world G -> world G -> Prop) (m : M G A) : Prop :=
  forall w o w', m w = (o, w') -> R w w'.

(** The log grew by calls that satisfy [P]. *)
Definition logs_with {G} (P : call -> Prop) (w w' : world G) : Prop :=
  exists l, calls w' = calls w ++ l /\ Forall P l.

(** The log grew by calls other than fetches. *)
Definition logs_no_fetch {G} (w w' : world G) : Prop :=
  logs_with (fun c => ~ is_fetch c) w w'.

(** The store is as it was and the log grew by calls other than fetches. *)
Definition only_logs {G} (w w' : world G) : Prop :=
  store w' = store w /\ logs_no_fetch w w'.

(** The calls made for a build entry. *)
Definition build_call (c : call) : Prop :=
  match c with
  | Call_teiid _ => True
  | Call_create_or_update m _ => m = ContainerKojiBuild
  | Call_get_or_none m _ => m = KojiBuild
  | Call_add_label _ _ => True
  | Call_connect r _ _ => r = triggered_container_builds
  | _ => False
  end.

(** The calls made for an event once its Advisory has been upserted. *)
Definition link_call (c : call) : Prop :=
  match c with
  | Call_conditional_connect r _ _ => r = triggered_by_advisory
  | _ => build_call c
  end.

(** The new entries of the call log of [w'] over that of [w]. *)
Definition calls_since {G} (w w' : world G) : list call :=
  drop (List.length (calls w)) (calls w').

(** The URLs fetched, in the order of the calls. *)
Definition fetched (l : list call) : list pyval :=
  omap (fun c => match c with Call_get u => Some u | _ => None end) l.

Definition is_create_or_update (m : model) (c : call) : Prop :=
  match c with Call_create_or_update m' _ => m' = m | _ => False end.

#[global] Instance is_create_or_update_dec m c : Decision (is_create_or_update m c).
Proof. destruct c; simpl; apply _. Defined.

(* ===================================================================== *)
(** ** Notions for the graph store *)
(* ===================================================================== *)

(** Node [i] of [g] is of the type with labels [ls] and has identity [key]. *)
Definition matches_at (ls : list string) (key : string) (g : graph) (i : nat) : Prop :=
  exists n, nodes g !! i = Some n /\ has_labels ls key n.

(** [g'] is a later state of [g]: nodes keep their number and identity and
    do not lose labels, relationships stay, and an identity that a type
    already has in [g] is not taken a second time under that type. *)
Definition later (g g' : graph) : Prop :=
  (forall i n, nodes g !! i = Some n ->
               exists n', nodes g' !! i = Some n' /\ n_id n' = n_id n /\
                          n_labels n ⊆ n_labels n') /\
  rels g ⊆ rels g' /\
  (forall ls key i j, ls <> [] -> matches_at ls key g i -> matches_at ls key g' j ->
                      matches_at ls key g j).

(** The store without the attributes of its nodes. *)
Definition shape (g : graph) : list (list string * string) * list (relationship * nat * nat) :=
  ((fun n => (n_labels n, n_id n)) <$> nodes g, rels g).

(** Every attribute of every node of [s'] has the value it has in [s] or
    the value it has in [f]. *)
Definition attributes_from (f s s' : graph) : Prop :=
  forall i n' k, nodes s' !! i = Some n' ->
    (exists n, nodes s !! i = Some n /\ n_props n' !! k = n_props n !! k) \/
    (exists n, nodes f !! i = Some n /\ n_props n' !! k = n_props n !! k).

(** [s'] is a state of a second run that stands for the state [s] of the
    first run, whose final state is [f]. *)
Definition replays (f s s' : graph) : Prop :=
  shape s' = shape f /\ attributes_from f s s'.

(** A run of [m] that returns in a state with [f] in its future returns the
    same value from every state that replays [f], in a state that replays
    [f] again. *)
Definition replayable {A} (f : graph) (m : M graph A) : Prop :=
  forall w w' a w1,
    m w = (Ok a, w1) -> later (store w1) f -> replays f (store w) (store w') ->
    exists w1', m w' = (Ok a, w1') /\ replays f (store w1) (store w1').

(** [m] takes the store to a later state. *)
Definition grows (w w' : world graph) : Prop := later (store w) (store w').

(** [m] gives the same outcome whatever the store, and leaves it alone. *)
Definition oblivious {G A} (m : M G A) : Prop :=
  exists o l, forall w, m w = (o, World (store w) (calls w ++ l)).









(** The relationships of [w'] are those of [w], followed by new ones. *)
Definition rels_appended (w w' : world graph) : Prop :=
  exists l, rels (store w') = rels (store w) ++ l.


(* ===================================================================== *)
(** ** Sample data *)
(* ===================================================================== *)

(** The task result of the end-to-end scenario: [koji_builds] holds "55". *)
Definition task_result_55 : string :=
  "<?xml version='1.0'?><methodResponse><params><param><value><struct><member><name>koji_builds</name><value><array><data><value><string>55</string></value></data></array></value></member><member><name>repositories</name><value><array><data><value><string>registry/pkg</string></value></data></array></value></member></struct></value></param></params></methodResponse>".

(** A task result without a [koji_builds] field, and one whose field is
    empty. *)
Definition task_result_no_field : string :=
  "<methodResponse><params><param><value><struct><member><name>repositories</name><value><array><data><value><string>registry/pkg</string></value></data></array></value></member></struct></value></param></params></methodResponse>".

Definition task_result_empty_field : string :=
  "<methodResponse><params><param><value><struct><member><name>koji_builds</name><value><array><data></data></array></value></member></struct></value></param></params></methodResponse>".

(** An event record with the given identity, [search_key] and builds. *)
Definition event_record (id_ search_key : pyval) (builds : list pyval) : pyval :=
  PDict [("id", id_); ("event_type_id", PInt 8); ("message_id", PStr "msg");
         ("state", PInt 2); ("state_name", PStr "COMPLETE"); ("state_reason", PNone);
         ("url", PStr "/api/1/events/x"); ("search_key", search_key);
         ("builds", PList builds)].

Definition build_record (build_id : pyval) (original_nvr : string) : pyval :=
  PDict [("build_id", build_id); ("original_nvr", PStr original_nvr)].

(** A page of the feed. *)
Definition page (items : list pyval) (next : pyval) : pyval :=
  PDict [("items", PList items); ("meta", PDict [("next", next)])].

(** A feed of one page, whatever the URL. *)
Definition one_page_feed (items : list pyval) : pyval -> res pyval :=
  fun _ => Val (page items PNone).

(** A task table: the rows Teiid returns for a task id. *)
Definition task_table (t : list (Z * pyval)) : pyval -> res pyval :=
  fun task_id =>
    match task_id with
    | PInt z =>
        match List.find (fun kv => kv.1 =? z) t with
        | Some (_, r) => Val (PList [PDict [("result", r)]])
        | None => Val (PList [])
        end
    | _ => Val (PList [])
    end.

(** The end-to-end scenario: event 42 for advisory "7" with one build, task
    101, whose result names build "55". *)
Definition scenario_event : pyval :=
  event_record (PInt 42) (PStr "7") [build_record (PInt 101) "pkg-1.0-1"].

Definition scenario_services : services graph :=
  store_services (one_page_feed [scenario_event])
                 (task_table [(101, PStr task_result_55)])
                 xml_fromstring.

Definition start : world graph := World empty_graph [].

(** An event for a string that names no advisory. *)
Definition unlinked_event : pyval := event_record (PInt 43) (PStr "RHSA-2018:1234") [].

(** A store that holds build "55" as a plain [KojiBuild]. *)
Definition generic_build_store : graph :=
  Graph [Node [label_of KojiBuild] "55" {[ "name" := PStr "pkg" ]}] [].

(** A store in which identity "55" is held under the container label
    alone, so that no [KojiBuild] answers for it. *)
Definition stray_label_store : graph :=
  Graph [Node [label_of ContainerKojiBuild] "55" ∅] [].

(** A feed of three pages; the first two name the page that follows. *)
Definition three_page_feed : pyval -> res pyval :=
  fun u =>
    match u with
    | PStr s =>
        if String.eqb s freshmaker_url
        then Val (page [event_record (PInt 1) (PStr "7") []; unlinked_event] (PStr "page2"))
        else if String.eqb s "page2"
        then Val (page [event_record (PInt 2) (PStr "8") []] (PStr "page3"))
        else if String.eqb s "page3"
        then Val (page [event_record (PInt 3) (PStr "7") []] PNone)
        else Exc TransportError
    | _ => Exc TypeError
    end.

Definition three_page_services : services graph :=
  store_services three_page_feed (task_table []) xml_fromstring.

Definition three_pages : list (pyval * list pyval) :=
  [(PStr freshmaker_url, [event_record (PInt 1) (PStr "7") []; unlinked_event]);
   (PStr "page2", [event_record (PInt 2) (PStr "8") []]);
   (PStr "page3", [event_record (PInt 3) (PStr "7") []])].

(** An event whose [search_key] has leading zeros, and its feed. *)
Definition padded_event : pyval := event_record (PInt 42) (PStr "007") [].

Definition padded_services : services graph :=
  store_services (one_page_feed [padded_event]) (task_table []) xml_fromstring.


(** Build entries with a zero, a null, a negative and a worded task id. *)
Definition zero_build : pyval := build_record (PInt 0) "pkg-1.0-1".
Definition null_build : pyval := build_record PNone "pkg-1.0-1".
Definition negative_build : pyval := build_record (PInt (-1)) "pkg-1.0-1".
Definition worded_build : pyval := build_record (PStr "n/a") "pkg-1.0-1".

(** A task result that is not well-formed: the end tag does not match. *)
Definition malformed_services : services graph :=
  store_services (one_page_feed [scenario_event])
                 (task_table [(101, PStr "<a><b></a>")]) xml_fromstring.

(** Task tables for results without the field and with the field empty. *)
Definition no_field_services : services graph :=
  store_services (one_page_feed [scenario_event])
                 (task_table [(101, PStr task_result_no_field)]) xml_fromstring.

Definition empty_field_services : services graph :=
  store_services (one_page_feed [scenario_event])
                 (task_table [(101, PStr task_result_empty_field)]) xml_fromstring.

Definition worded_services : services graph :=
  store_services (one_page_feed [event_record (PInt 42) (PStr "7") [worded_build]])
                 (task_table []) xml_fromstring.

(** The keyword dictionary of the upsert of build "55". *)
Definition scenario_build_params : params :=
  [("id_", PStr "55"); ("original_nvr", PStr "pkg-1.0-1")].

(* ===================================================================== *)
(** ** Notions for the error paths and the call counts *)
(* ===================================================================== *)

(** [int(fm_event['search_key'])], the expression of line 49. *)
Definition search_key_int (fm_event : pyval) : res Z :=
  match py_getitem fm_event "search_key" with
  | Val k => py_int k
  | Exc e => Exc e
  end.

(** The keys of an event record that lines 53-62 read, in that order. *)
Definition event_fields : list string :=
  ["id"; "event_type_id"; "message_id"; "state"; "state_name"; "state_reason"; "url"].

(** The items of the page at [u]: [session.get(u).json()['items']], as the
    [for] loop of line 47 walks over them. *)
Definition page_items {G} (S : services G) (u : pyval) : res (list pyval) :=
  match session_get_json S u with
  | Val rv_json =>
      match py_getitem rv_json "items" with
      | Val items => py_iter items
      | Exc e => Exc e
      end
  | Exc e => Exc e
  end.

(** [rv_json['meta'].get('next')] for the page at [u], the test of line 112. *)
Definition page_next {G} (S : services G) (u : pyval) : res pyval :=
  match session_get_json S u with
  | Val rv_json =>
      match py_getitem rv_json "meta" with
      | Val meta => py_get meta "next"
      | Exc e => Exc e
      end
  | Exc e => Exc e
  end.

(** The page at [u] names [u] itself as the page that follows. *)
Definition names_itself {G} (S : services G) (u : pyval) : Prop :=
  exists d items meta,
    session_get_json S u = Val (PDict d) /\
    assoc_get "items" d = Some (PList items) /\
    assoc_get "meta" d = Some (PDict meta) /\
    assoc_get "next" meta = Some u /\ py_truthy u = true.

Definition is_teiid (c : call) : Prop :=
  match c with Call_teiid _ => True | _ => False end.

#[global] Instance is_teiid_dec c : Decision (is_teiid c).
Proof. destruct c; simpl; apply _. Defined.

Definition is_connect (c : call) : Prop :=
  match c with Call_connect _ _ _ => True | _ => False end.

#[global] Instance is_connect_dec c : Decision (is_connect c).
Proof. destruct c; simpl; apply _. Defined.

(** How many of the calls satisfy [P]. *)
Definition count (P : call -> Prop) `{forall c, Decision (P c)} (l : list call) : nat :=
  List.length (filter P l).

(** An event record without its [url], one without its [builds], one with a
    null [search_key], and a build entry without its [original_nvr]. *)
Definition event_without_url : pyval :=
  PDict [("id", PInt 42); ("event_type_id", PInt 8); ("message_id", PStr "msg");
         ("state", PInt 2); ("state_name", PStr "COMPLETE"); ("state_reason", PNone);
         ("search_key", PStr "7"); ("builds", PList [])].

Definition event_without_builds : pyval :=
  PDict [("id", PInt 42); ("event_type_id", PInt 8); ("message_id", PStr "msg");
         ("state", PInt 2); ("state_name", PStr "COMPLETE"); ("state_reason", PNone);
         ("url", PStr "/api/1/events/x"); ("search_key", PStr "7")].

Definition event_with_null_key : pyval := event_record (PInt 42) PNone [].

(** An event record whose [search_key] is [NaN]. *)
Definition event_with_nan_key : pyval := event_record (PInt 44) (PFloat S754_nan) [].

(** An event record whose [search_key] is the number [1e999], which
    [json.loads] reads as an infinity. *)
Definition event_with_infinite_key : pyval :=
  event_record (PInt 42) (PFloat (S754_infinity false)) [].

Definition build_without_nvr : pyval := PDict [("build_id", PInt 101)].

(** A document whose root is itself a field called [koji_builds]. *)
Definition root_field_document : element :=
  Element "member" None
          [Element "name" (Some "koji_builds") [] None;
           Element "string" (Some "55") [] None] None.

(** A task table whose result for task 101 is the empty text. *)
Definition empty_result_services : services graph :=
  store_services (one_page_feed [scenario_event]) (task_table [(101, PStr "")]) xml_fromstring.

(** A feed whose only page names itself as the next one. *)
Definition looping_feed : pyval -> res pyval :=
  fun u => Val (page [] u).

Definition looping_services : services graph :=
  store_services looping_feed (task_table []) xml_fromstring.

(** A feed whose page has no [meta], and one whose page has no [items]. *)
Definition no_meta_services : services graph :=
  store_services (fun _ => Val (PDict [("items", PList [scenario_event])]))
                 (task_table [(101, PStr task_result_55)]) xml_fromstring.

Definition no_items_services : services graph :=
  store_services (fun _ => Val (PDict [("meta", PDict [])]))
                 (task_table []) xml_fromstring.

(** A feed of one page with an event for advisory "7", an event with a null
    [search_key], and a third event that is never reached. *)
Definition aborting_services : services graph :=
  store_services (one_page_feed [event_record (PInt 1) (PStr "7") []; event_with_null_key;
                                 event_record (PInt 3) (PStr "8") []])
                 (task_table []) xml_fromstring.

(* ===================================================================== *)
(** * Properties *)
(* ===================================================================== *)

Example int_of_text_7 : int_of_text "7" = Some 7.
Proof. reflexivity. Qed.
Example int_of_text_padded : int_of_text " 007 " = Some 7.
Proof. reflexivity. Qed.
Example int_of_text_neg : int_of_text "-12" = Some (-12).
Proof. reflexivity. Qed.
Example int_of_text_grouped : int_of_text "1_000" = Some 1000.
Proof. reflexivity. Qed.
Example int_of_text_bad_group : int_of_text "1__0" = None /\ int_of_text "_1" = None /\ int_of_text "1_" = None.
Proof. repeat split; reflexivity. Qed.
Example int_of_text_word : int_of_text "RHSA-2018:1234" = None.
Proof. reflexivity. Qed.
Example int_of_text_empty : int_of_text "" = None /\ int_of_text "-" = None.
Proof. split; reflexivity. Qed.
Example int_of_text_separator : int_of_text (String (ascii_of_nat 28) "7") = None.
Proof. reflexivity. Qed.
Example int_of_text_no_break_space : int_of_text (String (ascii_of_nat 160) "7") = Some 7.
Proof. reflexivity. Qed.
Example int_of_text_sign_apart : int_of_text "- 7" = None.
Proof. reflexivity. Qed.
Example int_of_text_too_long :
  int_of_text (string_of_list_ascii (replicate 4301 "1"%char)) = None /\
  is_Some (int_of_text (string_of_list_ascii (replicate 4300 "1"%char))).
Proof. split; [vm_compute; reflexivity | vm_compute; eexists; reflexivity]. Qed.
Example py_int_float :
  py_int (PFloat (S754_finite false 79 (-3))) = Val 9 /\
  py_int (PFloat (S754_finite true 79 (-3))) = Val (-9) /\
  py_int (PFloat (S754_zero true)) = Val 0 /\
  py_int (PFloat S754_nan) = Exc ValueError /\
  py_int (PFloat (S754_infinity true)) = Exc OverflowError.
Proof. repeat split; reflexivity. Qed.
Example py_truthy_float :
  py_truthy (PFloat (S754_zero true)) = false /\ py_truthy (PFloat S754_nan) = true.
Proof. split; reflexivity. Qed.
Example py_str_int : py_str (PInt 7) = Some "7" /\ py_str (PInt (-42)) = Some "-42".
Proof. split; vm_compute; reflexivity. Qed.
Example read_document_nested :
  read_document "<?xml version='1.0'?> <a >t<b/>u</a >"
  = Some (Element "a" (Some "t") [Element "b" None [] (Some "u")] None).
Proof. vm_compute. reflexivity. Qed.
Example read_document_refused :
  read_document "" = None /\ read_document " <?xml version='1.0'?><a/>" = None /\
  read_document "<a><b></a>" = None /\ read_document "<1a/>" = None /\
  read_document "<a>x]]>y</a>" = None /\ read_document "<a/><b/>" = None.
Proof. repeat split; vm_compute; reflexivity. Qed.

(* ===================================================================== *)
(** ** Laws of the monad *)
(* ===================================================================== *)

Section MonadLaws.
Context {G : Type}.

Lemma bind_ret_l {A B} (a : A) (k : A -> M G B) w : bind (ret a) k w = k a w.
Proof. reflexivity. Qed.

Lemma bind_lift_val {A B} (r : res A) (a : A) (k : A -> M G B) w :
  r = Val a -> bind (lift r) k w = k a w.
Proof. intros ->. reflexivity. Qed.

Lemma bind_lift_exc {A B} (r : res A) (e : exn) (k : A -> M G B) w :
  r = Exc e -> bind (lift r) k w = (Raise e, w).
Proof. intros ->. reflexivity. Qed.

Lemma bind_ok {A B} (m : M G A) (k : A -> M G B) w a w' :
  m w = (Ok a, w') -> bind m k w = k a w'.
Proof. unfold bind. intros ->. reflexivity. Qed.

Lemma bind_raise {A B} (m : M G A) (k : A -> M G B) w e w' :
  m w = (Raise e, w') -> bind m k w = (Raise e, w').
Proof. unfold bind. intros ->. reflexivity. Qed.

Lemma bind_assoc {A B C} (m : M G A) (k : A -> M G B) (h : B -> M G C) w :
  bind (bind m k) h w = bind m (fun a => bind (k a) h) w.
Proof. unfold bind. destruct (m w) as [[a|e|] w']; reflexivity. Qed.

Lemma for_each_app {A} (l1 l2 : list A) (body : A -> M G unit) w :
  for_each (l1 ++ l2) body w = bind (for_each l1 body) (fun _ => for_each l2 body) w.
Proof.
  revert w. induction l1 as [|x l1 IH]; intros w; simpl.
  - reflexivity.
  - rewrite bind_assoc. unfold bind at 1 2.
    destruct (body x w) as [[[]|e|] w']; [apply IH|reflexivity|reflexivity].
Qed.

(** An exception in the body of a loop ends the loop with it. *)
Lemma for_each_raise {A} (pre post : list A) (x : A) (body : A -> M G unit) w w1 e w2 :
  for_each pre body w = (Ok tt, w1) ->
  body x w1 = (Raise e, w2) ->
  for_each (pre ++ x :: post) body w = (Raise e, w2).
Proof.
  intros Hpre Hx. rewrite for_each_app. rewrite (bind_ok _ _ _ _ _ Hpre).
  simpl. apply bind_raise. exact Hx.
Qed.

(** An iteration that is passed over leaves the loop to the next one. *)
Lemma for_each_skip {A} (x : A) (rest : list A) (body : A -> M G unit) w w1 :
  body x w = (Ok tt, w1) ->
  for_each (x :: rest) body w = for_each rest body w1.
Proof. intros H. simpl. rewrite (bind_ok _ _ _ _ _ H). reflexivity. Qed.
End MonadLaws.

(* ===================================================================== *)
(** ** The event filter *)
(* ===================================================================== *)

Section EventFilter.
Context {G : Type} (S : services G).

Lemma search_key_is_int_text (fm_event : pyval) (s : string) (w : world G) :
  py_getitem fm_event "search_key" = Val (PStr s) ->
  search_key_is_int fm_event w = (Ok (bool_decide (is_Some (int_of_text s))), w).
Proof.
  intros Hk. unfold search_key_is_int, try_except, bind, lift. rewrite Hk. simpl.
  destruct (int_of_text s); reflexivity.
Qed.

(** The values [int] refuses with a [ValueError]: text that is no integer
    numeral, and the float [NaN]. *)
Lemma py_int_ValueError (k : pyval) :
  py_int k = Exc ValueError <->
  (exists s, k = PStr s /\ int_of_text s = None) \/ k = PFloat S754_nan.
Proof.
  split.
  - destruct k as [ | b | z | f | s | l | d]; simpl; try discriminate.
    + destruct f; simpl; try discriminate. auto.
    + destruct (int_of_text s) eqn:E; [discriminate|]. eauto.
  - intros [(s & -> & Hs) | ->]; simpl; [rewrite Hs|]; reflexivity.
Qed.

Lemma search_key_is_int_ValueError (fm_event k : pyval) (w : world G) :
  py_getitem fm_event "search_key" = Val k ->
  py_int k = Exc ValueError ->
  search_key_is_int fm_event w = (Ok false, w).
Proof.
  intros Hk Hz. unfold search_key_is_int, try_except, bind, lift. rewrite Hk. simpl.
  rewrite Hz. reflexivity.
Qed.

(** C6, as the code has it.  An event record whose [search_key] is text
    that is no integer numeral, or the number [NaN], is passed over: these
    are the values on which the conversion of line 49 raises the
    [ValueError] that line 50 catches.  Processing the record returns
    normally and leaves the store and the call log as they were, so that
    no Event node, no Advisory node and no relationship is written for it,
    and the loop goes on with the events that follow. *)
Theorem non_integer_search_key_skipped (fm_event k : pyval) (w : world G) :
  py_getitem fm_event "search_key" = Val k ->
  (exists s, k = PStr s /\ int_of_text s = None) \/ k = PFloat S754_nan ->
  py_int k = Exc ValueError /\
  process_event S fm_event w = (Ok tt, w) /\
  forall rest, for_each (fm_event :: rest) (process_event S) w
               = for_each rest (process_event S) w.
Proof.
  intros Hk Hs. apply py_int_ValueError in Hs. split; [exact Hs|].
  assert (H : process_event S fm_event w = (Ok tt, w)).
  { unfold process_event.
    rewrite (bind_ok _ _ _ _ _ (search_key_is_int_ValueError _ _ _ Hk Hs)). reflexivity. }
  split; [exact H|]. intros rest. apply for_each_skip. exact H.
Qed.
End EventFilter.

(** An event for "RHSA-2018:1234" is passed over, and the loop goes on with
    the event that follows it. *)
Lemma non_integer_search_key_skipped_witness :
  (py_int (PStr "RHSA-2018:1234") = Exc ValueError /\
   process_event scenario_services unlinked_event start = (Ok tt, start) /\
   forall rest, for_each (unlinked_event :: rest) (process_event scenario_services) start
                = for_each rest (process_event scenario_services) start) /\
  process_event scenario_services event_with_nan_key start = (Ok tt, start).
Proof.
  split.
  - apply (non_integer_search_key_skipped scenario_services unlinked_event
             (PStr "RHSA-2018:1234") start); [reflexivity|].
    left. exists "RHSA-2018:1234". split; reflexivity.
  - apply (non_integer_search_key_skipped scenario_services event_with_nan_key
             (PFloat S754_nan) start); [reflexivity|].
    right. reflexivity.
Defined.

(** C6, as stated, fails for a [search_key] that is no text: a null does
    not parse as an integer either, but the conversion raises [TypeError],
    which line 50 does not catch.  The record is not passed over: the
    exception ends the run, and the event that follows on the page is never
    processed. *)
Lemma null_search_key_is_not_skipped :
  py_getitem event_with_null_key "search_key" = Val PNone /\
  py_int PNone = Exc TypeError /\
  process_event aborting_services event_with_null_key start = (Raise TypeError, start) /\
  (exists w',
      run aborting_services 1 PNone PNone start = (Raise TypeError, w') /\
      map (fun n => (n_labels n, n_id n)) (nodes (store w'))
      = [(["FreshmakerEvent"], "1"); (["Advisory"], "7")]).
Proof.
  split; [reflexivity|]. split; [reflexivity|]. split; [reflexivity|].
  eexists. split; vm_compute; reflexivity.
Qed.

(* ===================================================================== *)
(** ** Relations every step of the scraper respects *)
(* ===================================================================== *)

Section Respects.
Context {G : Type} (R : world G -> world G -> Prop).
Hypothesis R_refl : forall w, R w w.
Hypothesis R_trans : forall a b c, R a b -> R b c -> R a c.

Lemma respects_ret {A} (a : A) : respects R (ret a).
Proof using R_refl. intros w o w' [= <- <-]. apply R_refl. Qed.

Lemma respects_raise {A} (e : exn) : respects R (@raise G A e).
Proof using R_refl. intros w o w' [= <- <-]. apply R_refl. Qed.

Lemma respects_out_of_fuel {A} : respects R (@out_of_fuel G A).
Proof using R_refl. intros w o w' [= <- <-]. apply R_refl. Qed.

Lemma respects_lift {A} (r : res A) : respects R (lift r).
Proof using R_refl. intros w o w'. destruct r; intros [= <- <-]; apply R_refl. Qed.

Lemma respects_bind {A B} (m : M G A) (k : A -> M G B) :
  respects R m -> (forall a, respects R (k a)) -> respects R (bind m k).
Proof using R_trans.
  intros Hm Hk w o w'. unfold bind.
  destruct (m w) as [[a|e|] w1] eqn:E; intros H.
  - eapply R_trans; [eapply Hm, E | eapply Hk, H].
  - injection H as <- <-. eapply Hm, E.
  - injection H as <- <-. eapply Hm, E.
Qed.

Lemma respects_try_except {A} (m : M G A) caught (h : M G A) :
  respects R m -> respects R h -> respects R (try_except m caught h).
Proof using R_trans.
  intros Hm Hh w o w'. unfold try_except.
  destruct (m w) as [[a|e|] w1] eqn:E; intros H.
  - injection H as <- <-. eapply Hm, E.
  - destruct (caught e).
    + eapply R_trans; [eapply Hm, E | eapply Hh, H].
    + injection H as <- <-. eapply Hm, E.
  - injection H as <- <-. eapply Hm, E.
Qed.

Lemma respects_for_each {A} (l : list A) (body : A -> M G unit) :
  (forall x, respects R (body x)) -> respects R (for_each l body).
Proof using R_refl R_trans.
  intros Hb. induction l as [|x l IH]; simpl.
  - apply respects_ret.
  - apply respects_bind; [apply Hb | intros _; apply IH].
Qed.
End Respects.

(** Breaks a goal [respects R m] down along the shape of [m]. *)
Ltac respects_step :=
  lazymatch goal with
  | |- respects _ (bind _ _) => apply respects_bind; [assumption | | intros ?]
  | |- respects _ (ret _) => apply respects_ret; assumption
  | |- respects _ (raise _) => apply respects_raise; assumption
  | |- respects _ out_of_fuel => apply respects_out_of_fuel; assumption
  | |- respects _ (lift _) => apply respects_lift; assumption
  | |- respects _ (try_except _ _ _) => apply respects_try_except; [assumption | | ]
  | |- respects _ (for_each _ _) => apply respects_for_each; [assumption | assumption | intros ?]
  | |- respects _ (if ?b then _ else _) => destruct b
  | |- respects _ (match ?x with Some _ => _ | None => _ end) => destruct x
  end.

Section ScraperRespects.
Context {G : Type} (S : services G) (R : world G -> world G -> Prop).
Hypothesis R_refl : forall w, R w w.
Hypothesis R_trans : forall a b c, R a b -> R b c -> R a c.
(** The read-only lookup and each call of the store the scraper makes
    respect [R]. *)
Hypothesis R_teiid : forall t, respects R (@call_ext G _ (Call_teiid t) (teiid_query S t)).
Hypothesis R_build_upsert : forall p,
  respects R (call_store (Call_create_or_update ContainerKojiBuild p)
                         (create_or_update S ContainerKojiBuild p)).
Hypothesis R_get_or_none : forall i,
  respects R (call_store (Call_get_or_none KojiBuild i) (get_or_none S KojiBuild i)).
Hypothesis R_add_label : forall n,
  respects R (call_store (Call_add_label n (label_of ContainerKojiBuild))
                         (add_label S n (label_of ContainerKojiBuild))).
Hypothesis R_connect : forall a b,
  respects R (call_store (Call_connect triggered_container_builds a b)
                         (connect S triggered_container_builds a b)).

Lemma get_koji_task_result_respects t : respects R (get_koji_task_result S t).
Proof using R_refl R_trans R_teiid.
  unfold get_koji_task_result. repeat first [respects_step | apply R_teiid].
Qed.

Lemma upsert_container_build_respects p i : respects R (upsert_container_build S p i).
Proof using R_refl R_trans R_build_upsert R_get_or_none R_add_label.
  unfold upsert_container_build.
  repeat first [respects_step | apply R_build_upsert | apply R_get_or_none | apply R_add_label].
Qed.

Lemma process_build_respects ev bd : respects R (process_build S ev bd).
Proof using R_refl R_trans R_teiid R_build_upsert R_get_or_none R_add_label R_connect.
  unfold process_build, faulty_build, extract_build_id.
  repeat first [respects_step | apply get_koji_task_result_respects
               | apply upsert_container_build_respects | apply R_connect].
Qed.

Hypothesis R_event_upsert : forall p,
  respects R (call_store (Call_create_or_update FreshmakerEvent p)
                         (create_or_update S FreshmakerEvent p)).
Hypothesis R_get_or_create : forall p,
  respects R (call_store (Call_get_or_create Advisory p) (get_or_create S Advisory p)).
Hypothesis R_conditional_connect : forall a b,
  respects R (call_store (Call_conditional_connect triggered_by_advisory a b)
                         (conditional_connect S triggered_by_advisory a b)).

Lemma process_event_respects fm_event : respects R (process_event S fm_event).
Proof using R_refl R_trans R_teiid R_build_upsert R_get_or_none R_add_label R_connect
            R_event_upsert R_get_or_create R_conditional_connect.
  unfold process_event, search_key_is_int, event_params.
  repeat first [respects_step | apply process_build_respects
               | apply R_event_upsert | apply R_get_or_create | apply R_conditional_connect].
Qed.

Hypothesis R_get : forall u, respects R (@call_ext G _ (Call_get u) (session_get_json S u)).

Lemma scrape_from_respects fuel u : respects R (scrape_from S fuel u).
Proof using All.
  revert u. induction fuel as [|fuel IH]; intros u; simpl.
  - apply respects_out_of_fuel; assumption.
  - repeat first [respects_step | apply process_event_respects | apply R_get | apply IH].
Qed.
End ScraperRespects.

(* ===================================================================== *)
(** ** The call log *)
(* ===================================================================== *)

Section CallLog.
Context {G : Type}.

Lemma logs_with_refl P (w : world G) : logs_with P w w.
Proof. exists []. split; [symmetry; apply app_nil_r | constructor]. Qed.

Lemma logs_with_trans P (a b c : world G) :
  logs_with P a b -> logs_with P b c -> logs_with P a c.
Proof.
  intros (l1 & H1 & F1) (l2 & H2 & F2). exists (l1 ++ l2). split.
  - rewrite H2, H1. symmetry. apply app_assoc.
  - apply Forall_app. split; assumption.
Qed.

Lemma logs_no_fetch_refl (w : world G) : logs_no_fetch w w.
Proof. apply logs_with_refl. Qed.

Lemma logs_no_fetch_trans (a b c : world G) :
  logs_no_fetch a b -> logs_no_fetch b c -> logs_no_fetch a c.
Proof. apply logs_with_trans. Qed.

Lemma call_ext_logs_with {A} P (c : call) (r : res A) :
  P c -> respects (logs_with P) (@call_ext G A c r).
Proof.
  intros Hc w o w'. unfold call_ext, lift. destruct r; intros [= <- <-];
    (exists [c]; split; [reflexivity | constructor; [exact Hc | constructor]]).
Qed.

Lemma call_store_logs_with {A} P (c : call) (op : G -> res A * G) :
  P c -> respects (logs_with P) (call_store c op).
Proof.
  intros Hc w o w'. unfold call_store, lift.
  destruct (op (store w)) as [[a|e] g]; intros [= <- <-];
    (exists [c]; split; [reflexivity | constructor; [exact Hc | constructor]]).
Qed.

(** What is left of a sequence after its first step respects [R] too. *)
Lemma bind_tail {A B} (R : world G -> world G -> Prop) (m : M G A) (k : A -> M G B) w o w' :
  (forall x, R x x) ->
  (forall a, respects R (k a)) ->
  bind m k w = (o, w') ->
  exists o1 w1, m w = (o1, w1) /\ R w1 w'.
Proof.
  intros Hrefl Hk. unfold bind. destruct (m w) as [[a|e|] w1] eqn:E; intros H.
  - exists (Ok a), w1. split; [reflexivity | eapply Hk, H].
  - injection H as <- <-. exists (Raise e), w1. split; [reflexivity | apply Hrefl].
  - injection H as <- <-. exists OutOfFuel, w1. split; [reflexivity | apply Hrefl].
Qed.

Lemma only_logs_refl (w : world G) : only_logs w w.
Proof. split; [reflexivity | apply logs_no_fetch_refl]. Qed.

Lemma only_logs_trans (a b c : world G) :
  only_logs a b -> only_logs b c -> only_logs a c.
Proof.
  intros [E1 L1] [E2 L2]. split; [congruence|].
  eapply logs_no_fetch_trans; eassumption.
Qed.

Lemma call_ext_eq {A} (c : call) (r : res A) (w : world G) :
  call_ext c r w =
  (match r with Val a => Ok a | Exc e => Raise e end, World (store w) (calls w ++ [c])).
Proof. unfold call_ext, lift. destruct r; reflexivity. Qed.

Lemma call_store_eq {A} (c : call) (op : G -> res A * G) (w : world G) :
  call_store c op w =
  (match (op (store w)).1 with Val a => Ok a | Exc e => Raise e end,
   World (op (store w)).2 (calls w ++ [c])).
Proof. unfold call_store, lift. destruct (op (store w)) as [[a|e] g]; reflexivity. Qed.

Lemma call_ext_only_logs {A} (c : call) (r : res A) :
  ~ is_fetch c -> respects only_logs (@call_ext G A c r).
Proof.
  intros Hc w o w'. rewrite call_ext_eq. intros [= <- <-]. split; [reflexivity|].
  exists [c]. split; [reflexivity | constructor; [exact Hc | constructor]].
Qed.

Lemma call_store_logs_no_fetch {A} (c : call) (op : G -> res A * G) :
  ~ is_fetch c -> respects logs_no_fetch (call_store c op).
Proof. intros Hc. apply (call_store_logs_with (fun c => ~ is_fetch c)). exact Hc. Qed.

Lemma only_logs_no_fetch (w w' : world G) : only_logs w w' -> logs_no_fetch w w'.
Proof. intros [_ H]. exact H. Qed.

Lemma calls_since_app (w w' : world G) (l : list call) :
  calls w' = calls w ++ l -> calls_since w w' = l.
Proof. intros H. unfold calls_since. rewrite H. apply drop_app_length. Qed.

Lemma fetched_no_fetch (l : list call) : Forall (fun c => ~ is_fetch c) l -> fetched l = [].
Proof.
  induction 1 as [|c l Hc _ IH]; [reflexivity|].
  unfold fetched in *. simpl. destruct c; simpl in *; try exact IH. contradiction.
Qed.

Lemma fetched_app (l1 l2 : list call) : fetched (l1 ++ l2) = fetched l1 ++ fetched l2.
Proof. unfold fetched. apply omap_app. Qed.
End CallLog.

Section ScraperLog.
Context {G : Type} (S : services G).

(** The task lookup leaves the store alone. *)
Lemma get_koji_task_result_only_logs t : respects only_logs (get_koji_task_result S t).
Proof.
  apply get_koji_task_result_respects.
  - apply only_logs_refl.
  - apply only_logs_trans.
  - intros t'. apply call_ext_only_logs. simpl. tauto.
Qed.

(** The calls made for a build entry are those of [build_call]. *)
Lemma process_build_logs ev bd : respects (logs_with build_call) (process_build S ev bd).
Proof.
  apply process_build_respects;
    try (intros; first [apply logs_with_refl | eapply logs_with_trans; eassumption]);
    try (intros; apply call_store_logs_with; simpl; tauto).
  intros t. apply call_ext_logs_with. exact I.
Qed.

(** Processing an event makes no fetch. *)
Lemma process_event_logs_no_fetch fm_event : respects logs_no_fetch (process_event S fm_event).
Proof.
  apply process_event_respects;
    try (intros; first [apply logs_no_fetch_refl | eapply logs_no_fetch_trans; eassumption]);
    try (intros; apply call_store_logs_no_fetch; simpl; tauto).
  intros t w o w' H. apply only_logs_no_fetch.
  eapply (call_ext_only_logs (Call_teiid t)); [simpl; tauto | exact H].
Qed.
End ScraperLog.

(* ===================================================================== *)
(** ** The identity of the Advisory *)
(* ===================================================================== *)

Section AdvisoryIdentity.
Context {G : Type} (S : services G).

Lemma search_key_is_int_ok (fm_event k : pyval) (z : Z) (w : world G) :
  py_getitem fm_event "search_key" = Val k ->
  py_int k = Val z ->
  search_key_is_int fm_event w = (Ok true, w).
Proof.
  intros Hk Hz. unfold search_key_is_int, try_except, bind, lift.
  rewrite Hk. simpl. rewrite Hz. reflexivity.
Qed.

Lemma build_call_link_call c : build_call c -> link_call c.
Proof. destruct c; simpl; tauto. Qed.

Lemma process_build_link_calls ev bd : respects (logs_with link_call) (process_build S ev bd).
Proof.
  intros w o w' H. destruct (process_build_logs S ev bd w o w' H) as (l & Hl & Fl).
  exists l. split; [exact Hl|]. eapply Forall_impl; [exact Fl | apply build_call_link_call].
Qed.

(** C5, as the code has it.  For an event that passes the integer filter
    and whose Event node is written, the next call to the store is the
    get-or-create of the Advisory under the [search_key] as it was
    received, and no other Advisory is asked for.  That identity is the
    decimal form of the parsed integer whenever the [search_key] is the
    integer itself or its plain decimal numeral, such as "7". *)
Theorem advisory_upserted_by_search_key_as_received
        (fm_event k : pyval) (z : Z) (p : params) (event : nat) (g1 : G) (w : world G) :
  py_getitem fm_event "search_key" = Val k ->
  py_int k = Val z ->
  event_params fm_event w = (Ok p, w) ->
  create_or_update S FreshmakerEvent p (store w) = (Val event, g1) ->
  (exists o w' l,
      process_event S fm_event w = (o, w') /\
      calls_since w w' = Call_create_or_update FreshmakerEvent p
                           :: Call_get_or_create Advisory [("id_", k)] :: l /\
      Forall link_call l) /\
  (k = PInt z \/ k = PStr (pretty z) -> identity [("id_", k)] = Some (pretty z)).
Proof.
  intros Hk Hz Hp Hev. split.
  - unfold process_event.
    rewrite (bind_ok _ _ _ _ _ (search_key_is_int_ok _ _ _ _ Hk Hz)). simpl.
    assert (Hid : exists v, py_getitem fm_event "id" = Val v).
    { revert Hp. unfold event_params, bind, lift.
      destruct (py_getitem fm_event "id"); [eauto|discriminate]. }
    destruct Hid as [v Hid].
    rewrite (bind_lift_val _ _ _ _ Hid).
    rewrite (bind_ok _ _ _ _ _ Hp).
    unfold bind at 1. unfold call_store at 1. rewrite Hev. simpl.
    rewrite !(bind_lift_val _ _ _ _ Hk).
    match goal with
    | |- exists o w' l, bind ?m ?k ?w0 = _ /\ _ =>
        destruct (bind m k w0) as [o w'] eqn:E;
        destruct (bind_tail (logs_with link_call) m k w0 o w') as (o1 & w1 & E1 & (l & Hl & Fl));
        [apply logs_with_refl | | exact E | ]
    end.
    + intros advisory. cbv beta.
      pose proof (@logs_with_refl G link_call) as Hrefl.
      pose proof (@logs_with_trans G link_call) as Htrans.
      repeat first [respects_step
                   | apply process_build_link_calls
                   | apply call_store_logs_with; reflexivity].
    + exists o, w', l. split; [reflexivity|]. split; [|exact Fl].
      apply calls_since_app. rewrite Hl.
      rewrite call_store_eq in E1. injection E1 as _ <-. simpl.
      rewrite <- !app_assoc. reflexivity.
  - intros [-> | ->]; reflexivity.
Qed.
End AdvisoryIdentity.

(** C5, as stated, fails for a [search_key] with leading zeros: the filter
    reads "007" as 7, and the Advisory written has identity "007", which
    is not the identity "7" of the parsed value. *)
Lemma advisory_identity_is_not_the_parsed_value :
  py_int (PStr "007") = Val 7 /\
  identity [("id_", PInt 7)] = Some "7" /\
  (exists w',
      process_event padded_services padded_event start = (Ok tt, w') /\
      filter (fun n => "Advisory" ∈ n_labels n) (nodes (store w'))
      = [Node ["Advisory"] "007" ∅]) /\
  "007" <> "7".
Proof.
  split; [reflexivity|]. split; [reflexivity|]. split; [|discriminate].
  eexists. split; [vm_compute; reflexivity|]. vm_compute. reflexivity.
Qed.

Lemma advisory_upserted_by_search_key_as_received_witness :
  (exists o w' l,
      process_event scenario_services scenario_event start = (o, w') /\
      calls_since start w'
      = Call_create_or_update FreshmakerEvent
          [("id_", PInt 42); ("event_type_id", PInt 8); ("message_id", PStr "msg");
           ("state", PInt 2); ("state_name", PStr "COMPLETE"); ("state_reason", PNone);
           ("url", PStr "/api/1/events/x")]
          :: Call_get_or_create Advisory [("id_", PStr "7")] :: l /\
      Forall link_call l) /\
  (PStr "7" = PInt 7 \/ PStr "7" = PStr (pretty 7) -> identity [("id_", PStr "7")] = Some (pretty 7)).
Proof.
  apply (advisory_upserted_by_search_key_as_received
           scenario_services scenario_event (PStr "7") 7 _ 0%nat
           (Graph [Node ["FreshmakerEvent"] "42"
                     (attributes [("id_", PInt 42); ("event_type_id", PInt 8);
                                  ("message_id", PStr "msg"); ("state", PInt 2);
                                  ("state_name", PStr "COMPLETE"); ("state_reason", PNone);
                                  ("url", PStr "/api/1/events/x")])] [])
           start); reflexivity.
Defined.

(* ===================================================================== *)
(** ** The filter on build entries *)
(* ===================================================================== *)

Section BuildFilter.
Context {G : Type} (S : services G).

Lemma faulty_build_eq (bd b : pyval) (w : world G) :
  py_getitem bd "build_id" = Val b ->
  faulty_build bd w =
  (if negb (py_truthy b) then Ok true
   else match py_int b with Val n => Ok (n <? 0) | Exc e => Raise e end, w).
Proof.
  intros Hb. unfold faulty_build, bind, lift, ret. rewrite Hb.
  destruct (py_truthy b); simpl; [|reflexivity].
  destruct (py_int b); reflexivity.
Qed.

Lemma get_koji_task_result_world (t : pyval) (w : world G) :
  exists o, get_koji_task_result S t w = (o, World (store w) (calls w ++ [Call_teiid t])).
Proof.
  unfold get_koji_task_result, try_except, bind. rewrite call_ext_eq.
  destruct (teiid_query S t) as [rows|e]; simpl.
  - unfold lift. destruct (py_getitem0 rows) as [row|e]; simpl.
    + destruct (py_getitem row "result") as [r|e]; simpl; [eauto|].
      destruct (_ || _); eauto.
    + destruct (_ || _); eauto.
  - destruct (_ || _); eauto.
Qed.

(** C4, as the code has it.  A build entry is passed over by the filter
    exactly when its [build_id] is falsy (null, zero, empty) or converts to
    a negative integer; passing it over leaves the store and the log as
    they were, so no Build node comes from it; an entry whose [build_id]
    is truthy and converts to an integer that is not negative goes on to
    the task lookup, which is the first call made for it. *)
Theorem build_filter_skips_falsy_or_negative (event : nat) (bd b : pyval) (w : world G) :
  py_getitem bd "build_id" = Val b ->
  (faulty_build bd w = (Ok true, w) <->
   py_truthy b = false \/ exists z, py_int b = Val z /\ z < 0) /\
  (faulty_build bd w = (Ok true, w) -> process_build S event bd w = (Ok tt, w)) /\
  (forall z, py_truthy b = true -> py_int b = Val z -> 0 <= z ->
             faulty_build bd w = (Ok false, w) /\
             exists o w' l, process_build S event bd w = (o, w') /\
                            calls_since w w' = Call_teiid b :: l).
Proof.
  intros Hb. pose proof (faulty_build_eq bd b w Hb) as Hf. split; [|split].
  - rewrite Hf. destruct (py_truthy b); simpl.
    + destruct (py_int b) as [n|e]; split.
      * intros [= Hn]. right. exists n. split; [reflexivity|]. lia.
      * intros [|(z & [= <-] & Hz)]; [discriminate|].
        do 2 f_equal. apply Z.ltb_lt. exact Hz.
      * discriminate.
      * intros [|(z & ? & _)]; discriminate.
    + split; [intros _; left; reflexivity | reflexivity].
  - intros H. unfold process_build. rewrite (bind_ok _ _ _ _ _ H). reflexivity.
  - intros z Ht Hz Hnn.
    assert (Hff : faulty_build bd w = (Ok false, w)).
    { rewrite Hf, Ht, Hz. simpl. do 2 f_equal. apply Z.ltb_ge. exact Hnn. }
    split; [exact Hff|].
    unfold process_build. rewrite (bind_ok _ _ _ _ _ Hff).
    rewrite (bind_lift_val _ _ _ _ Hb).
    pose proof (@logs_with_refl G build_call) as Hrefl.
    pose proof (@logs_with_trans G build_call) as Htrans.
    match goal with
    | |- exists o w' l, bind ?m ?k ?w0 = _ /\ _ =>
        destruct (bind m k w0) as [o w'] eqn:E;
        destruct (bind_tail (logs_with build_call) m k w0 o w') as (o1 & w1 & E1 & (l & Hl & _));
        [apply logs_with_refl | | exact E | ]
    end.
    + intros r. cbv beta. unfold extract_build_id.
      repeat first [respects_step
                   | assumption
                   | apply upsert_container_build_respects
                   | intros; apply call_store_logs_with; reflexivity].
    + destruct (get_koji_task_result_world b w) as [o2 E2].
      rewrite E2 in E1. injection E1 as _ <-.
      exists o, w', l. split; [reflexivity|].
      apply calls_since_app. rewrite Hl. simpl. rewrite <- app_assoc. reflexivity.
Qed.

(** An unparsable [build_id] makes the filter itself raise. *)
Lemma worded_build_id_raises (event : nat) (bd : pyval) (s : string) (w : world G) :
  py_getitem bd "build_id" = Val (PStr s) ->
  s <> "" ->
  int_of_text s = None ->
  process_build S event bd w = (Raise ValueError, w).
Proof.
  intros Hb Hs Hi. unfold process_build. apply bind_raise.
  rewrite (faulty_build_eq _ _ _ Hb). simpl.
  destruct (String.eqb_spec s ""); [contradiction|]. simpl. rewrite Hi. reflexivity.
Qed.
End BuildFilter.

(** C4, as stated, fails for a task id of zero: the entry is passed over,
    and its [build_id] is neither missing nor negative. *)
Lemma zero_build_id_is_skipped :
  faulty_build zero_build start = (Ok true, start) /\
  process_build scenario_services 0%nat zero_build start = (Ok tt, start) /\
  ~ (build_id_missing zero_build \/ build_id_negative zero_build).
Proof.
  split; [reflexivity|]. split; [reflexivity|].
  intros [H | (z & H & Hz)].
  - discriminate H.
  - injection H as <-. lia.
Qed.

Lemma build_filter_skips_falsy_or_negative_witness :
  (faulty_build negative_build start = (Ok true, start) <->
   py_truthy (PInt (-1)) = false \/ exists z, py_int (PInt (-1)) = Val z /\ z < 0) /\
  (faulty_build negative_build start = (Ok true, start) ->
   process_build scenario_services 0%nat negative_build start = (Ok tt, start)) /\
  (forall z, py_truthy (PInt (-1)) = true -> py_int (PInt (-1)) = Val z -> 0 <= z ->
             faulty_build negative_build start = (Ok false, start) /\
             exists o w' l, process_build scenario_services 0%nat negative_build start = (o, w') /\
                            calls_since start w' = Call_teiid (PInt (-1)) :: l).
Proof.
  apply (build_filter_skips_falsy_or_negative scenario_services 0%nat negative_build (PInt (-1)) start).
  reflexivity.
Defined.

(** C10. There is a build entry whose [build_id] is present and non-empty
    text that does not parse as an integer, for which the filter's [int]
    conversion raises [ValueError]: the entry is not passed over, whatever
    the services and the store; and a run over a feed whose one event
    carries that entry ends with the exception, after the Event and the
    Advisory of that event were written. *)
Theorem unparsable_build_id_aborts_the_run :
  exists bd s,
    py_getitem bd "build_id" = Val (PStr s) /\ s <> "" /\ int_of_text s = None /\
    (forall G (S : services G) event w,
        process_build S event bd w = (Raise ValueError, w) /\
        forall rest, for_each (bd :: rest) (process_build S event) w = (Raise ValueError, w)) /\
    (forall fuel, exists w',
        run worded_services (Datatypes.S fuel) PNone PNone start = (Raise ValueError, w') /\
        map n_labels (nodes (store w')) = [["FreshmakerEvent"]; ["Advisory"]]).
Proof.
  exists worded_build, "n/a".
  split; [reflexivity|]. split; [discriminate|]. split; [reflexivity|]. split.
  - intros G S event w.
    assert (H : process_build S event worded_build w = (Raise ValueError, w)).
    { apply (worded_build_id_raises S event worded_build "n/a"); [reflexivity|discriminate|reflexivity]. }
    split; [exact H|]. intros rest. simpl. apply bind_raise. exact H.
  - intros fuel. eexists. split; [vm_compute; reflexivity|]. vm_compute. reflexivity.
Qed.

(* ===================================================================== *)
(** ** Task resolution *)
(* ===================================================================== *)

Lemma element_nested_ind (P : element -> Prop) :
  (forall tag text children tail, Forall P children -> P (Element tag text children tail)) ->
  forall e, P e.
Proof.
  intros H. fix IH 1. intros [tag text children tail]. apply H.
  induction children as [|c cs IHcs]; constructor; [apply IH | exact IHcs].
Qed.

Lemma descendant_trans d c e : descendant d c -> descendant c e -> descendant d e.
Proof.
  intros Hdc Hce. induction Hce as [c e Hc | c c' e Hc' _ IH].
  - eapply descendant_deeper; eassumption.
  - eapply descendant_deeper; [exact Hc' | exact (IH Hdc)].
Qed.

Lemma iter_children_unfold tag t tx cs tl :
  iter tag (Element t tx cs tl)
  = (if tag_matches tag (Element t tx cs tl) then [Element t tx cs tl] else [])
      ++ flat_map (iter tag) cs.
Proof.
  reflexivity.
Qed.

(** What [iter] yields is the element or lies below it, and has the tag. *)
Lemma elem_of_iter tag x e :
  x ∈ iter tag e -> (x = e \/ descendant x e) /\ tag_matches tag x = true.
Proof.
  revert x. induction e as [t tx cs tl IH] using element_nested_ind. intros x.
  rewrite iter_children_unfold. rewrite elem_of_app. intros [Hx | Hx].
  - destruct (tag_matches tag (Element t tx cs tl)) eqn:E.
    + apply list_elem_of_singleton in Hx. subst x. split; [left; reflexivity | exact E].
    + inversion Hx.
  - apply list_elem_of_In, in_flat_map in Hx. destruct Hx as (c & Hc & Hx).
    apply list_elem_of_In in Hc, Hx.
    rewrite Forall_forall in IH. destruct (IH c Hc x Hx) as [[-> | Hd] Ht].
    + split; [right; apply descendant_child; exact Hc | exact Ht].
    + split; [right; eapply descendant_deeper; [exact Hc | exact Hd] | exact Ht].
Qed.

Lemma elem_of_select_descendant tag x result :
  x ∈ select_descendant tag result ->
  exists e, e ∈ result /\ descendant x e /\ tag_matches tag x = true.
Proof.
  unfold select_descendant. intros Hx.
  apply list_elem_of_In, in_flat_map in Hx. destruct Hx as (e & He & Hx).
  apply in_flat_map in Hx. destruct Hx as (c & Hc & Hx).
  apply list_elem_of_In in He, Hc, Hx.
  exists e. split; [exact He|].
  destruct (elem_of_iter tag x c Hx) as [[-> | Hd] Ht].
  - split; [apply descendant_child; destruct e; exact Hc | exact Ht].
  - split; [eapply descendant_deeper; [destruct e; exact Hc | exact Hd] | exact Ht].
Qed.

Lemma elem_of_select_tag_text value x result :
  x ∈ select_tag_text "name" value result -> x ∈ result /\ is_field value x.
Proof.
  unfold select_tag_text. rewrite list_elem_of_filter. intros [Hex Hx].
  split; [exact Hx|]. apply Exists_exists in Hex. destruct Hex as (c & Hc & Htext).
  unfold findall_children in Hc. apply list_elem_of_filter in Hc. destruct Hc as [Htag Hc].
  exists c. auto.
Qed.

(** Where [find] lands: on a [string] element below a [koji_builds] field
    of the document. *)
Lemma find_koji_builds_string_Some root s :
  find_koji_builds_string root = Some s ->
  exists m, descendant m root /\ is_field "koji_builds" m /\
            descendant s m /\ e_tag s = "string".
Proof.
  unfold find_koji_builds_string, select_self. intros H.
  apply head_Some_elem_of in H.
  apply elem_of_select_descendant in H. destruct H as (m & Hm & Hsm & Hs).
  apply elem_of_select_tag_text in Hm. destruct Hm as [Hm Hfield].
  apply elem_of_select_descendant in Hm. destruct Hm as (r & Hr & Hmr & _).
  apply list_elem_of_singleton in Hr. subst r.
  exists m. repeat split; try assumption.
  unfold tag_matches in Hs. simpl in Hs. apply String.eqb_eq in Hs. exact Hs.
Qed.

Section TaskResolution.
Context {G : Type} (S : services G).

Lemma get_koji_task_result_value (b r : pyval) (w : world G) :
  task_result_is S b r ->
  get_koji_task_result S b w = (Ok r, World (store w) (calls w ++ [Call_teiid b])).
Proof.
  intros (rows & row & Hq & H0 & Hr).
  unfold get_koji_task_result, try_except, bind. rewrite call_ext_eq, Hq.
  unfold lift. rewrite H0, Hr. reflexivity.
Qed.

Lemma get_koji_task_result_no_row (b : pyval) (w : world G) :
  no_row S b ->
  get_koji_task_result S b w = (Ok PNone, World (store w) (calls w ++ [Call_teiid b])).
Proof.
  intros Hq. unfold get_koji_task_result, try_except, bind. rewrite call_ext_eq, Hq.
  reflexivity.
Qed.

Lemma get_koji_task_result_no_column (b : pyval) (w : world G) :
  no_result_column S b ->
  get_koji_task_result S b w = (Ok PNone, World (store w) (calls w ++ [Call_teiid b])).
Proof.
  intros (d & rest & Hq & Hd).
  unfold get_koji_task_result, try_except, bind. rewrite call_ext_eq, Hq.
  unfold lift. simpl. rewrite Hd. reflexivity.
Qed.

Lemma extract_build_id_lacks_field (root : element) (w : world G) :
  lacks_field "koji_builds" root -> extract_build_id root w = (Ok None, w).
Proof.
  intros Hl. unfold extract_build_id, try_except.
  destruct (find_koji_builds_string root) as [s|] eqn:E; [|reflexivity].
  apply find_koji_builds_string_Some in E. destruct E as (m & Hm & Hf & _).
  destruct (Hl m Hm Hf).
Qed.

Lemma extract_build_id_empty_field (root : element) (w : world G) :
  field_is_empty "koji_builds" root ->
  exists t, extract_build_id root w = (Ok t, w) /\ text_truthy t = false.
Proof.
  intros He. unfold extract_build_id, try_except.
  destruct (find_koji_builds_string root) as [s|] eqn:E.
  - apply find_koji_builds_string_Some in E. destruct E as (m & Hm & Hf & Hs & Ht).
    exists (e_text s). split; [reflexivity|]. eapply He; eassumption.
  - exists None. split; reflexivity.
Qed.

(** The part of [process_build] that follows the filter. *)
Lemma process_build_after_filter (event : nat) (bd b : pyval) (w : world G) :
  passes_filter bd b ->
  process_build S event bd w =
  bind (get_koji_task_result S b)
       (fun task_result =>
          if negb (py_truthy task_result) then ret tt
          else
            xml_root <- lift (ET_fromstring S task_result) ;;
            build_id <- extract_build_id xml_root ;;
            if negb (text_truthy build_id) then ret tt
            else
              let build_id := PStr (default "" build_id) in
              original_nvr <- lift (py_getitem bd "original_nvr") ;;
              let build_params := [("id_", build_id); ("original_nvr", original_nvr)] in
              build <- upsert_container_build S build_params build_id ;;
              call_store (Call_connect triggered_container_builds event build)
                         (connect S triggered_container_builds event build)) w.
Proof.
  intros (Hb & Ht & z & Hz & Hnn). unfold process_build.
  assert (Hf : faulty_build bd w = (Ok false, w)).
  { rewrite (faulty_build_eq _ _ _ Hb), Ht, Hz. simpl. do 2 f_equal. apply Z.ltb_ge. exact Hnn. }
  rewrite (bind_ok _ _ _ _ _ Hf). rewrite (bind_lift_val _ _ _ _ Hb). reflexivity.
Qed.

(** C7. When the query service has no row for the task, when the row has
    no [result] column, when the result document lacks the [koji_builds]
    field, and when that field is empty, task resolution gives nothing:
    the lookup returns [None], or the extraction returns no text; no
    exception is raised; and the build entry is passed over, with the
    store as it was and the task lookup as the only call made, so that no
    build identity is made up. *)
Theorem task_resolution_absent (event : nat) (bd b : pyval) (w : world G) :
  passes_filter bd b ->
  let w1 := World (store w) (calls w ++ [Call_teiid b]) in
  (no_row S b \/ no_result_column S b -> get_koji_task_result S b w = (Ok PNone, w1)) /\
  (forall root, lacks_field "koji_builds" root -> extract_build_id root w1 = (Ok None, w1)) /\
  (forall root, field_is_empty "koji_builds" root ->
                exists t, extract_build_id root w1 = (Ok t, w1) /\ text_truthy t = false) /\
  (no_row S b \/ no_result_column S b \/ no_build_in_result S b ->
   process_build S event bd w = (Ok tt, w1) /\
   forall rest, for_each (bd :: rest) (process_build S event) w
                = for_each rest (process_build S event) w1).
Proof.
  intros Hpass w1.
  assert (Hnone : no_row S b \/ no_result_column S b ->
                  get_koji_task_result S b w = (Ok PNone, w1)).
  { intros [H | H];
      [apply get_koji_task_result_no_row | apply get_koji_task_result_no_column]; exact H. }
  split; [exact Hnone|].
  split; [intros root; apply extract_build_id_lacks_field|].
  split; [intros root; apply extract_build_id_empty_field|].
  intros Habs.
  assert (H : process_build S event bd w = (Ok tt, w1)).
  { rewrite (process_build_after_filter _ _ _ _ Hpass).
    destruct Habs as [H | [H | (r & root & Hr & Ht & Hparse & Hdoc)]].
    - rewrite (bind_ok _ _ _ _ _ (Hnone (or_introl H))). reflexivity.
    - rewrite (bind_ok _ _ _ _ _ (Hnone (or_intror H))). reflexivity.
    - rewrite (bind_ok _ _ _ _ _ (get_koji_task_result_value _ _ w Hr)).
      fold w1. rewrite Ht. simpl. rewrite (bind_lift_val _ _ _ _ Hparse).
      destruct Hdoc as [Hdoc | Hdoc].
      + rewrite (bind_ok _ _ _ _ _ (extract_build_id_lacks_field root w1 Hdoc)). reflexivity.
      + destruct (extract_build_id_empty_field root w1 Hdoc) as (t & Et & Htt).
        rewrite (bind_ok _ _ _ _ _ Et). rewrite Htt. reflexivity. }
  split; [exact H|]. intros rest. apply for_each_skip. exact H.
Qed.

(** C3, as the code has it.  For a task result that the parser refuses
    ([ParseError] for a document that is not well-formed), what happens
    depends on line 78 alone.  A result that is not empty is handed to the
    parser, whose exception is not caught: the build entry is not passed
    over, the loop over the builds ends with the exception, and nothing is
    written for the entry.  An empty result is never handed to the parser:
    the build entry is passed over and the loop goes on. *)
Theorem malformed_task_result_is_fatal
        (event : nat) (bd b r : pyval) (e : exn) (w : world G) :
  passes_filter bd b ->
  task_result_is S b r ->
  ET_fromstring S r = Exc e ->
  let w1 := World (store w) (calls w ++ [Call_teiid b]) in
  (py_truthy r = true ->
   process_build S event bd w = (Raise e, w1) /\
   forall rest, for_each (bd :: rest) (process_build S event) w = (Raise e, w1)) /\
  (py_truthy r = false ->
   process_build S event bd w = (Ok tt, w1) /\
   forall rest, for_each (bd :: rest) (process_build S event) w
                = for_each rest (process_build S event) w1).
Proof.
  intros Hpass Hr Hparse w1.
  assert (Hb : process_build S event bd w
               = (if negb (py_truthy r) then ret tt
                  else
                    xml_root <- lift (ET_fromstring S r) ;;
                    build_id <- extract_build_id xml_root ;;
                    if negb (text_truthy build_id) then ret tt
                    else
                      let build_id := PStr (default "" build_id) in
                      original_nvr <- lift (py_getitem bd "original_nvr") ;;
                      let build_params := [("id_", build_id); ("original_nvr", original_nvr)] in
                      build <- upsert_container_build S build_params build_id ;;
                      call_store (Call_connect triggered_container_builds event build)
                                 (connect S triggered_container_builds event build)) w1).
  { rewrite (process_build_after_filter _ _ _ _ Hpass).
    rewrite (bind_ok _ _ _ _ _ (get_koji_task_result_value _ _ w Hr)). reflexivity. }
  split; intros Ht; rewrite Ht in Hb; simpl in Hb.
  - assert (H : process_build S event bd w = (Raise e, w1)).
    { rewrite Hb. apply bind_lift_exc. exact Hparse. }
    split; [exact H|]. intros rest. simpl. apply bind_raise. exact H.
  - split; [exact Hb|]. intros rest. apply for_each_skip. exact Hb.
Qed.
End TaskResolution.

(** The selectors reach everything below an element. *)
Lemma elem_of_iter_self tag e : tag_matches tag e = true -> e ∈ iter tag e.
Proof.
  intros H. destruct e as [t tx cs tl]. rewrite iter_children_unfold, H.
  apply elem_of_app. left. apply list_elem_of_singleton. reflexivity.
Qed.

Lemma elem_of_iter_below tag x c e :
  c ∈ e_children e -> x ∈ iter tag c -> x ∈ flat_map (iter tag) (e_children e).
Proof.
  intros Hc Hx. apply list_elem_of_In, in_flat_map. exists c.
  split; apply list_elem_of_In; assumption.
Qed.

Lemma descendant_elem_of_iter tag x e :
  descendant x e -> tag_matches tag x = true -> x ∈ flat_map (iter tag) (e_children e).
Proof.
  intros Hd Ht. induction Hd as [x e Hx | x c e Hc _ IH].
  - eapply elem_of_iter_below; [exact Hx | apply elem_of_iter_self, Ht].
  - eapply elem_of_iter_below; [exact Hc|].
    destruct c as [t tx cs tl]. rewrite iter_children_unfold. apply elem_of_app. right.
    exact (IH Ht).
Qed.

Lemma descendant_elem_of_select tag x e result :
  e ∈ result -> descendant x e -> tag_matches tag x = true ->
  x ∈ select_descendant tag result.
Proof.
  intros He Hd Ht. unfold select_descendant. apply list_elem_of_In, in_flat_map.
  exists e. split; apply list_elem_of_In; [exact He|].
  apply descendant_elem_of_iter; assumption.
Qed.

Lemma is_field_elem_of_select value m result :
  m ∈ result -> is_field value m -> m ∈ select_tag_text "name" value result.
Proof.
  intros Hm (c & Hc & Htag & Htext). unfold select_tag_text.
  apply list_elem_of_filter. split; [|exact Hm].
  apply Exists_exists. exists c. split; [|exact Htext].
  unfold findall_children. apply list_elem_of_filter. split; assumption.
Qed.

(** The two notions on documents, as the selectors compute them. *)
Lemma lacks_field_by_selectors name root :
  select_tag_text "name" name (select_descendant "*" [root]) = [] ->
  lacks_field name root.
Proof.
  intros H m Hm Hf.
  assert (Hin : m ∈ select_tag_text "name" name (select_descendant "*" [root])).
  { apply is_field_elem_of_select; [|exact Hf].
    eapply descendant_elem_of_select; [apply list_elem_of_singleton; reflexivity | exact Hm |].
    reflexivity. }
  rewrite H in Hin. inversion Hin.
Qed.

Lemma field_is_empty_by_selectors name root :
  Forall (fun s => text_truthy (e_text s) = false)
         (select_descendant "string"
            (select_tag_text "name" name (select_descendant "*" [root]))) ->
  field_is_empty name root.
Proof.
  intros H m s Hm Hf Hs Htag. rewrite Forall_forall in H. apply H.
  eapply descendant_elem_of_select; [|exact Hs|].
  - apply is_field_elem_of_select; [|exact Hf].
    eapply descendant_elem_of_select; [apply list_elem_of_singleton; reflexivity | exact Hm |].
    reflexivity.
  - unfold tag_matches. rewrite Htag. reflexivity.
Qed.

Lemma scenario_build_passes_filter :
  passes_filter (build_record (PInt 101) "pkg-1.0-1") (PInt 101).
Proof.
  split; [reflexivity|]. split; [reflexivity|]. exists 101. split; [reflexivity | lia].
Qed.

Lemma task_resolution_absent_witness :
  process_build no_field_services 0%nat (build_record (PInt 101) "pkg-1.0-1") start
  = (Ok tt, World empty_graph [Call_teiid (PInt 101)]) /\
  process_build empty_field_services 0%nat (build_record (PInt 101) "pkg-1.0-1") start
  = (Ok tt, World empty_graph [Call_teiid (PInt 101)]) /\
  process_build scenario_services 0%nat (build_record (PInt 7) "pkg-1.0-1") start
  = (Ok tt, World empty_graph [Call_teiid (PInt 7)]).
Proof.
  split; [|split].
  - apply (task_resolution_absent no_field_services 0%nat _ (PInt 101) start
             scenario_build_passes_filter).
    right; right.
    assert (E : exists root, read_document task_result_no_field = Some root)
      by (eexists; vm_compute; reflexivity).
    destruct E as [root E].
    exists (PStr task_result_no_field), root. split; [|split; [|split]].
    + eexists _, _. repeat split; reflexivity.
    + reflexivity.
    + change (xml_fromstring (PStr task_result_no_field) = Val root).
      unfold xml_fromstring. rewrite E. reflexivity.
    + left. apply lacks_field_by_selectors.
      vm_compute in E. injection E as <-. vm_compute. reflexivity.
  - apply (task_resolution_absent empty_field_services 0%nat _ (PInt 101) start
             scenario_build_passes_filter).
    right; right.
    assert (E : exists root, read_document task_result_empty_field = Some root)
      by (eexists; vm_compute; reflexivity).
    destruct E as [root E].
    exists (PStr task_result_empty_field), root. split; [|split; [|split]].
    + eexists _, _. repeat split; reflexivity.
    + reflexivity.
    + change (xml_fromstring (PStr task_result_empty_field) = Val root).
      unfold xml_fromstring. rewrite E. reflexivity.
    + right. apply field_is_empty_by_selectors.
      vm_compute in E. injection E as <-. vm_compute. constructor.
  - apply (task_resolution_absent scenario_services 0%nat _ (PInt 7) start).
    + split; [reflexivity|]. split; [reflexivity|]. exists 7. split; [reflexivity | lia].
    + left. reflexivity.
Defined.

(** C3, as stated, fails: for a task result whose end tag does not match,
    the parser raises [ParseError], the build entry is not passed over and
    the run ends with the exception. *)
Lemma malformed_task_result_aborts_the_run :
  xml_fromstring (PStr "<a><b></a>") = Exc ParseError /\
  task_result_is malformed_services (PInt 101) (PStr "<a><b></a>") /\
  (exists w', process_build malformed_services 0%nat
                            (build_record (PInt 101) "pkg-1.0-1") start
              = (Raise ParseError, w')) /\
  (exists w', run malformed_services 1 PNone PNone start = (Raise ParseError, w')).
Proof.
  split; [reflexivity|]. split; [eexists _, _; repeat split; reflexivity|].
  split; eexists; vm_compute; reflexivity.
Qed.

Lemma malformed_task_result_is_fatal_witness :
  process_build malformed_services 0%nat (build_record (PInt 101) "pkg-1.0-1") start
  = (Raise ParseError, World empty_graph [Call_teiid (PInt 101)]) /\
  process_build empty_result_services 0%nat (build_record (PInt 101) "pkg-1.0-1") start
  = (Ok tt, World empty_graph [Call_teiid (PInt 101)]).
Proof.
  split.
  - apply (malformed_task_result_is_fatal malformed_services 0%nat _ (PInt 101)
             (PStr "<a><b></a>") ParseError start scenario_build_passes_filter).
    + eexists _, _. repeat split; reflexivity.
    + reflexivity.
    + reflexivity.
  - apply (malformed_task_result_is_fatal empty_result_services 0%nat _ (PInt 101)
             (PStr "") ParseError start scenario_build_passes_filter).
    + eexists _, _. repeat split; reflexivity.
    + reflexivity.
    + reflexivity.
Defined.

(* ===================================================================== *)
(** ** The repair of the label of a build *)
(* ===================================================================== *)

Section LabelRepair.
Context {G : Type} (S : services G).

(** The part of [process_build] that follows the resolution of the build
    identity. *)
Lemma process_build_at_upsert (event : nat) (bd b nvr : pyval) (t : string) (w : world G) :
  resolves_to S bd b t ->
  py_getitem bd "original_nvr" = Val nvr ->
  process_build S event bd w =
  bind (upsert_container_build S [("id_", PStr t); ("original_nvr", nvr)] (PStr t))
       (fun build => call_store (Call_connect triggered_container_builds event build)
                                (connect S triggered_container_builds event build))
       (World (store w) (calls w ++ [Call_teiid b])).
Proof.
  intros (Hpass & r & root & s & Hr & Ht & Hparse & Hfind & Htext & Hne) Hnvr.
  rewrite (process_build_after_filter _ _ _ _ _ Hpass).
  rewrite (bind_ok _ _ _ _ _ (get_koji_task_result_value _ _ _ w Hr)).
  rewrite Ht. simpl. rewrite (bind_lift_val _ _ _ _ Hparse).
  assert (He : forall w', extract_build_id root w' = (Ok (Some t), w' : world G)).
  { intros w'. unfold extract_build_id, try_except. rewrite Hfind. simpl.
    rewrite Htext. reflexivity. }
  rewrite (bind_ok _ _ _ _ _ (He _)). simpl.
  destruct (String.eqb_spec t ""); [contradiction|]. simpl.
  rewrite (bind_lift_val _ _ _ _ Hnvr). reflexivity.
Qed.

(** A failure of the upsert ends the processing of the entry, and of the
    loop over the builds, with the exception. *)
Lemma upsert_failure_is_fatal (event : nat) (bd b nvr : pyval) (t : string)
      (w w' : world G) (e : exn) :
  resolves_to S bd b t ->
  py_getitem bd "original_nvr" = Val nvr ->
  upsert_container_build S [("id_", PStr t); ("original_nvr", nvr)] (PStr t)
                         (World (store w) (calls w ++ [Call_teiid b])) = (Raise e, w') ->
  process_build S event bd w = (Raise e, w') /\
  forall rest, for_each (bd :: rest) (process_build S event) w = (Raise e, w').
Proof.
  intros Hres Hnvr Hup.
  assert (H : process_build S event bd w = (Raise e, w')).
  { rewrite (process_build_at_upsert _ _ _ _ _ _ Hres Hnvr). apply bind_raise. exact Hup. }
  split; [exact H|]. intros rest. simpl. apply bind_raise. exact H.
Qed.

(** C2. When the typed create-or-update of a build raises the constraint
    violation: if the lookup of a [KojiBuild] with that identity finds
    none, the violation is raised again; if it finds a node, the
    [ContainerKojiBuild] label is added to that node and the
    create-or-update is made once more; whatever that second call gives,
    a node or any exception, is the result, so that the create-or-update
    is called exactly twice. *)
Theorem container_build_repair (p : params) (id_ : pyval) (w : world G) (g1 : G) :
  create_or_update S ContainerKojiBuild p (store w) = (Exc ConstraintValidationFailed, g1) ->
  let upsert := Call_create_or_update ContainerKojiBuild p in
  let lookup := Call_get_or_none KojiBuild id_ in
  (forall g2,
      get_or_none S KojiBuild id_ g1 = (Val None, g2) ->
      upsert_container_build S p id_ w
      = (Raise ConstraintValidationFailed, World g2 (calls w ++ [upsert; lookup]))) /\
  (forall b g2 g3 r g4,
      get_or_none S KojiBuild id_ g1 = (Val (Some b), g2) ->
      add_label S b (label_of ContainerKojiBuild) g2 = (Val tt, g3) ->
      create_or_update S ContainerKojiBuild p g3 = (r, g4) ->
      let again := [upsert; lookup; Call_add_label b (label_of ContainerKojiBuild); upsert] in
      upsert_container_build S p id_ w
      = (match r with Val n => Ok n | Exc e => Raise e end, World g4 (calls w ++ again)) /\
      List.length (filter (is_create_or_update ContainerKojiBuild) again) = 2%nat).
Proof.
  intros H1 upsert lookup. split.
  - intros g2 H2. unfold upsert_container_build, try_except.
    rewrite call_store_eq, H1. simpl.
    unfold bind. rewrite call_store_eq. simpl. rewrite H2. simpl.
    unfold raise. rewrite <- app_assoc. reflexivity.
  - intros b g2 g3 r g4 H2 H3 H4 again. split.
    + unfold upsert_container_build, try_except.
      rewrite call_store_eq, H1. simpl.
      unfold bind. rewrite call_store_eq. simpl. rewrite H2. simpl.
      rewrite call_store_eq. simpl in H3 |- *. rewrite H3. simpl.
      rewrite call_store_eq. simpl. rewrite H4. simpl.
      rewrite <- !app_assoc. reflexivity.
    + reflexivity.
Qed.

(** Without a violation the create-or-update is called once. *)
Lemma container_build_upsert_direct (p : params) (id_ : pyval) (w : world G) (r : res nat) (g1 : G) :
  create_or_update S ContainerKojiBuild p (store w) = (r, g1) ->
  r <> Exc ConstraintValidationFailed ->
  upsert_container_build S p id_ w
  = (match r with Val n => Ok n | Exc e => Raise e end,
     World g1 (calls w ++ [Call_create_or_update ContainerKojiBuild p])).
Proof.
  intros H1 Hr. unfold upsert_container_build, try_except.
  rewrite call_store_eq, H1. simpl. destruct r as [n|e]; [reflexivity|].
  destruct (bool_decide_reflect (e = ConstraintValidationFailed)); [congruence | reflexivity].
Qed.
End LabelRepair.

(** The repair on a store that holds "55" as a plain [KojiBuild]: one node
    with that identity remains, it carries both labels and the new
    attribute next to the old one, and the upsert was called twice. *)
Lemma container_build_repair_witness :
  upsert_container_build scenario_services scenario_build_params (PStr "55")
                         (World generic_build_store [])
  = (Ok 0%nat,
     World (Graph [Node [label_of KojiBuild; label_of ContainerKojiBuild] "55"
                        {[ "original_nvr" := PStr "pkg-1.0-1"; "name" := PStr "pkg" ]}] [])
           [Call_create_or_update ContainerKojiBuild scenario_build_params;
            Call_get_or_none KojiBuild (PStr "55");
            Call_add_label 0%nat (label_of ContainerKojiBuild);
            Call_create_or_update ContainerKojiBuild scenario_build_params]) /\
  upsert_container_build scenario_services scenario_build_params (PStr "55")
                         (World stray_label_store [])
  = (Raise ConstraintValidationFailed,
     World stray_label_store
           [Call_create_or_update ContainerKojiBuild scenario_build_params;
            Call_get_or_none KojiBuild (PStr "55")]).
Proof.
  split.
  - refine (proj1 (proj2 (container_build_repair scenario_services scenario_build_params
                            (PStr "55") (World generic_build_store []) generic_build_store _)
                         0%nat generic_build_store _ (Val 0%nat) _ _ _ _)); reflexivity.
  - refine (proj1 (container_build_repair scenario_services scenario_build_params
                     (PStr "55") (World stray_label_store []) stray_label_store _) _ _);
      reflexivity.
Defined.

(* ===================================================================== *)
(** ** The paging loop *)
(* ===================================================================== *)

Section Terminates.
Context {G : Type}.

Lemma terminates_ret {A} (a : A) : terminates (@ret G A a).
Proof. intros w. discriminate. Qed.

Lemma terminates_raise {A} (e : exn) : terminates (@raise G A e).
Proof. intros w. discriminate. Qed.

Lemma terminates_lift {A} (r : res A) : terminates (@lift G A r).
Proof. intros w. unfold lift. destruct r; discriminate. Qed.

Lemma terminates_call_ext {A} c (r : res A) : terminates (@call_ext G A c r).
Proof. intros w. rewrite call_ext_eq. destruct r; discriminate. Qed.

Lemma terminates_call_store {A} c (op : G -> res A * G) : terminates (call_store c op).
Proof. intros w. rewrite call_store_eq. simpl. destruct (op (store w)).1; discriminate. Qed.

Lemma terminates_bind {A B} (m : M G A) (k : A -> M G B) :
  terminates m -> (forall a, terminates (k a)) -> terminates (bind m k).
Proof.
  intros Hm Hk w. unfold bind. specialize (Hm w).
  destruct (m w) as [[a|e|] w1]; simpl in *; [apply Hk | discriminate | congruence].
Qed.

Lemma terminates_try_except {A} (m : M G A) caught (h : M G A) :
  terminates m -> terminates h -> terminates (try_except m caught h).
Proof.
  intros Hm Hh w. unfold try_except. specialize (Hm w).
  destruct (m w) as [[a|e|] w1]; simpl in *; [discriminate | | congruence].
  destruct (caught e); [apply Hh | discriminate].
Qed.

Lemma terminates_for_each {A} (l : list A) (body : A -> M G unit) :
  (forall x, terminates (body x)) -> terminates (for_each l body).
Proof.
  intros Hb. induction l as [|x l IH]; simpl.
  - apply terminates_ret.
  - apply terminates_bind; [apply Hb | intros _; exact IH].
Qed.
End Terminates.

Ltac terminates_step :=
  lazymatch goal with
  | |- terminates (bind _ _) => apply terminates_bind; [| intros ?]
  | |- terminates (ret _) => apply terminates_ret
  | |- terminates (raise _) => apply terminates_raise
  | |- terminates (lift _) => apply terminates_lift
  | |- terminates (call_ext _ _) => apply terminates_call_ext
  | |- terminates (call_store _ _) => apply terminates_call_store
  | |- terminates (try_except _ _ _) => apply terminates_try_except
  | |- terminates (for_each _ _) => apply terminates_for_each; intros ?
  | |- terminates (if ?b then _ else _) => destruct b
  | |- terminates (match ?x with Some _ => _ | None => _ end) => destruct x
  end.

Section Paging.
Context {G : Type} (S : services G).

Lemma bind_ext {A B} (m : M G A) (k1 k2 : A -> M G B) (w : world G) :
  (forall a w', k1 a w' = k2 a w') -> bind m k1 w = bind m k2 w.
Proof. intros H. unfold bind. destruct (m w) as [[a|e|] w']; [apply H | reflexivity..]. Qed.

Lemma bind_call_ext {A B} (c : call) (r : res A) (k : A -> M G B) (w : world G) :
  bind (call_ext c r) k w =
  match r with
  | Val a => k a (World (store w) (calls w ++ [c]))
  | Exc e => (Raise e, World (store w) (calls w ++ [c]))
  end.
Proof. unfold bind. rewrite call_ext_eq. destruct r; reflexivity. Qed.

(** Whatever the event, processing it comes to an end. *)
Lemma process_event_terminates fm_event : terminates (process_event S fm_event).
Proof.
  unfold process_event, search_key_is_int, event_params, process_build,
    faulty_build, get_koji_task_result, extract_build_id, upsert_container_build.
  repeat terminates_step.
Qed.

Lemma process_pages_terminates pages : terminates (process_pages S pages).
Proof.
  induction pages as [|[u items] rest IH]; simpl.
  - apply terminates_ret.
  - repeat terminates_step; [apply process_event_terminates | exact IH].
Qed.

(** The loop on a chain of pages is the pages processed in turn. *)
Lemma scrape_from_chain (pages : list (pyval * list pyval)) :
  forall (fuel : nat) (fm_url : pyval) (w : world G),
    feed_chain S fm_url pages ->
    (List.length pages <= fuel)%nat ->
    scrape_from S fuel fm_url w = process_pages S pages w.
Proof.
  induction pages as [|[u items] rest IH]; intros fuel fm_url w Hchain Hfuel.
  - destruct Hchain.
  - destruct fuel as [|fuel]; [simpl in Hfuel; lia|].
    destruct Hchain as (-> & d & meta & Hget & Hitems & Hmeta & Hnext).
    simpl scrape_from. simpl process_pages.
    rewrite !bind_call_ext, Hget.
    assert (Hi : py_getitem (PDict d) "items" = Val (PList items))
      by (simpl; rewrite Hitems; reflexivity).
    assert (Hm : py_getitem (PDict d) "meta" = Val (PDict meta))
      by (simpl; rewrite Hmeta; reflexivity).
    rewrite (bind_lift_val _ _ _ _ Hi).
    rewrite (bind_lift_val (py_iter (PList items)) items) by reflexivity.
    apply bind_ext. intros _ w1.
    rewrite (bind_lift_val _ _ _ _ Hm).
    destruct rest as [|[u' items'] rest'].
    + assert (Hn : exists next, py_get (PDict meta) "next" = Val next /\ py_truthy next = false).
      { simpl. destruct (assoc_get "next" meta) as [x|]; simpl in Hnext; eauto. }
      destruct Hn as (next & Hn & Hf).
      rewrite (bind_lift_val _ _ _ _ Hn). rewrite Hf. reflexivity.
    + destruct Hnext as (Hn & Ht & Hrest).
      assert (Hn1 : py_get (PDict meta) "next" = Val u') by (simpl; rewrite Hn; reflexivity).
      assert (Hn2 : py_getitem (PDict meta) "next" = Val u') by (simpl; rewrite Hn; reflexivity).
      rewrite (bind_lift_val _ _ _ _ Hn1). rewrite Ht.
      rewrite (bind_lift_val _ _ _ _ Hm). rewrite (bind_lift_val _ _ _ _ Hn2).
      apply IH; [exact Hrest | simpl in Hfuel |- *; lia].
Qed.

(** The fetches that the processing of a list of pages logs. *)
Lemma process_pages_fetches (pages : list (pyval * list pyval)) :
  forall (w : world G) o w',
    process_pages S pages w = (o, w') ->
    exists l, calls w' = calls w ++ l /\
              (exists k, fetched l = take k pages.*1) /\
              (o = Ok tt -> fetched l = pages.*1).
Proof.
  induction pages as [|[u items] rest IH]; intros w o w' H.
  - injection H as <- <-. exists []. rewrite app_nil_r.
    split; [reflexivity|]. split; [exists 0%nat|]; reflexivity.
  - simpl in H. unfold bind at 1 in H. rewrite call_ext_eq in H.
    unfold bind at 1 in H.
    destruct (for_each items (process_event S) _) as [o1 w1] eqn:E.
    assert (Hl : logs_no_fetch (World (store w) (calls w ++ [Call_get u])) w1).
    { eapply (respects_for_each logs_no_fetch); [apply logs_no_fetch_refl
        | apply logs_no_fetch_trans | intros x; apply process_event_logs_no_fetch | exact E]. }
    destruct Hl as (l1 & Hl1 & Fl1). simpl in Hl1.
    pose proof (fetched_no_fetch l1 Fl1) as Hf1.
    destruct o1 as [[]|e|].
    + destruct (IH w1 o w' H) as (l2 & Hl2 & (k & Hk) & Hok).
      exists (Call_get u :: l1 ++ l2). split; [|split].
      * rewrite Hl2, Hl1. rewrite <- !app_assoc. reflexivity.
      * exists (Datatypes.S k). change (Call_get u :: l1 ++ l2) with ([Call_get u] ++ l1 ++ l2).
        rewrite !fetched_app, Hf1, Hk. reflexivity.
      * intros Ho. change (Call_get u :: l1 ++ l2) with ([Call_get u] ++ l1 ++ l2).
        rewrite !fetched_app, Hf1, (Hok Ho). reflexivity.
    + injection H as <- <-. exists (Call_get u :: l1). split; [|split].
      * rewrite Hl1, <- app_assoc. reflexivity.
      * exists 1%nat. change (Call_get u :: l1) with ([Call_get u] ++ l1).
        rewrite fetched_app, Hf1. reflexivity.
      * discriminate.
    + exfalso. eapply (terminates_for_each items (process_event S));
        [intros x; apply process_event_terminates|]. rewrite E. reflexivity.
Qed.

(** C8. On a feed of n pages of which all but the last name the page that
    follows, the loop, given fuel for n pages or more, is the processing
    of the pages in feed order, each fetched once and its items processed
    in order; it never ends for want of fuel; the URLs it fetches are the
    first pages of the feed, in order, and when no exception ends the
    run they are exactly the n pages. *)
Theorem pagination_fetches_each_page_once
        (pages : list (pyval * list pyval)) (fuel : nat) (fm_url : pyval) (w : world G) :
  feed_chain S fm_url pages ->
  (List.length pages <= fuel)%nat ->
  scrape_from S fuel fm_url w = process_pages S pages w /\
  (scrape_from S fuel fm_url w).1 <> OutOfFuel /\
  (exists k, fetched (calls_since w (scrape_from S fuel fm_url w).2) = take k pages.*1) /\
  ((scrape_from S fuel fm_url w).1 = Ok tt ->
   fetched (calls_since w (scrape_from S fuel fm_url w).2) = pages.*1 /\
   List.length (fetched (calls_since w (scrape_from S fuel fm_url w).2)) = List.length pages).
Proof.
  intros Hchain Hfuel.
  pose proof (scrape_from_chain pages fuel fm_url w Hchain Hfuel) as Heq.
  split; [exact Heq|]. rewrite Heq.
  split; [apply process_pages_terminates|].
  destruct (process_pages S pages w) as [o w'] eqn:E.
  destruct (process_pages_fetches pages w o w' E) as (l & Hl & Hk & Hok).
  simpl. rewrite (calls_since_app _ _ _ Hl).
  split; [exact Hk|]. intros Ho. rewrite (Hok Ho). split; [reflexivity|].
  apply length_fmap.
Qed.
End Paging.

Lemma three_pages_chain : feed_chain three_page_services (PStr freshmaker_url) three_pages.
Proof.
  simpl. split; [reflexivity|]. eexists _, _.
  split; [reflexivity|]. split; [reflexivity|]. split; [reflexivity|].
  split; [reflexivity|]. split; [reflexivity|]. split; [reflexivity|]. eexists _, _.
  split; [reflexivity|]. split; [reflexivity|]. split; [reflexivity|].
  split; [reflexivity|]. split; [reflexivity|]. split; [reflexivity|]. eexists _, _.
  split; [reflexivity|]. split; [reflexivity|]. split; reflexivity.
Qed.

(** The three-page feed: three fetches, and the events of the three pages
    with an integer [search_key] written in feed order. *)
Lemma pagination_fetches_each_page_once_witness :
  (scrape_from three_page_services 3 (PStr freshmaker_url) start).1 = Ok tt /\
  fetched (calls_since start (scrape_from three_page_services 3 (PStr freshmaker_url) start).2)
  = [PStr freshmaker_url; PStr "page2"; PStr "page3"] /\
  map n_id (nodes (store (scrape_from three_page_services 3 (PStr freshmaker_url) start).2))
  = ["1"; "7"; "2"; "8"; "3"].
Proof.
  pose proof (pagination_fetches_each_page_once three_page_services three_pages 3
                (PStr freshmaker_url) start three_pages_chain (le_n 3)) as (_ & _ & _ & H).
  assert (Hok : (scrape_from three_page_services 3 (PStr freshmaker_url) start).1 = Ok tt)
    by (vm_compute; reflexivity).
  split; [exact Hok|]. split; [exact (proj1 (H Hok))|]. vm_compute. reflexivity.
Defined.

(* ===================================================================== *)
(** ** The graph store: later states *)
(* ===================================================================== *)

Lemma inherited_labels_nonempty m : inherited_labels m <> [].
Proof. destruct m; discriminate. Qed.

Lemma has_labels_mono ls key n n' :
  n_id n' = n_id n -> n_labels n ⊆ n_labels n' ->
  has_labels ls key n -> has_labels ls key n'.
Proof.
  intros Hid Hl [Hk Hf]. split; [congruence|].
  eapply Forall_impl; [exact Hf|]. intros l Hin. apply Hl, Hin.
Qed.

Lemma has_labels_same ls key n n' :
  n_id n' = n_id n -> n_labels n' = n_labels n ->
  has_labels ls key n' <-> has_labels ls key n.
Proof. intros Hid Hl. unfold has_labels. rewrite Hid, Hl. reflexivity. Qed.

Lemma has_labels_set_props ls key a n :
  has_labels ls key (set_props a n) <-> has_labels ls key n.
Proof. reflexivity. Qed.

Lemma has_labels_claims ls ls' key n :
  ls <> [] -> has_labels ls key n -> Forall (fun l => l ∈ ls') ls -> claims ls' key n.
Proof.
  intros Hne [Hk Hf] Hsub. split; [exact Hk|].
  destruct ls as [|l ls]; [contradiction|].
  apply Forall_cons in Hf, Hsub. destruct Hf as [Hl _], Hsub as [Hl' _].
  apply Exists_exists. exists l. split; assumption.
Qed.

Lemma later_refl g : later g g.
Proof.
  split; [|split].
  - intros i n H. exists n. split; [exact H|]. split; reflexivity.
  - reflexivity.
  - intros ls key i j _ _ H. exact H.
Qed.

Lemma later_matches g g' ls key i :
  later g g' -> matches_at ls key g i -> matches_at ls key g' i.
Proof.
  intros (Ha & _ & _) (n & Hn & Hm). destruct (Ha i n Hn) as (n' & Hn' & Hid & Hl).
  exists n'. split; [exact Hn'|]. eapply has_labels_mono; eassumption.
Qed.

Lemma later_trans g1 g2 g3 : later g1 g2 -> later g2 g3 -> later g1 g3.
Proof.
  intros H12 H23. pose proof H12 as (Ha & Hb & Hc). pose proof H23 as (Ha' & Hb' & Hc').
  split; [|split].
  - intros i n Hn. destruct (Ha i n Hn) as (n2 & Hn2 & Hid & Hl).
    destruct (Ha' i n2 Hn2) as (n3 & Hn3 & Hid' & Hl').
    exists n3. split; [exact Hn3|]. split; [congruence|]. etrans; eassumption.
  - etrans; eassumption.
  - intros ls key i j Hne Hi Hj. eapply Hc; [exact Hne | exact Hi |].
    eapply Hc'; [exact Hne | | exact Hj]. eapply later_matches; eassumption.
Qed.

(** What a successful merge did. *)
Lemma store_merge_Val upd m p g a g2 :
  store_merge upd m p g = (Val a, g2) ->
  exists key, identity p = Some key /\
    ((exists n, list_find (has_labels (inherited_labels m) key) (nodes g) = Some (a, n)) /\
     g2 = (if upd
           then Graph (map (fun n => if decide (has_labels (inherited_labels m) key n)
                                     then set_props (attributes p) n else n) (nodes g))
                      (rels g)
           else g)
     \/
     (list_find (has_labels (inherited_labels m) key) (nodes g) = None /\
      ~ Exists (claims (inherited_labels m) key) (nodes g) /\
      a = List.length (nodes g) /\
      g2 = Graph (nodes g ++ [Node (inherited_labels m) key (attributes p)]) (rels g))).
Proof.
  unfold store_merge. destruct (identity p) as [key|]; [|discriminate].
  intros H. exists key. split; [reflexivity|].
  destruct (list_find _ (nodes g)) as [[i n]|] eqn:E.
  - injection H as <- <-. left. eauto.
  - destruct (decide (Exists _ (nodes g))) as [Hex|Hex]; [discriminate|].
    injection H as <- <-. right. auto.
Qed.

(** A merge that fails leaves the store as it was. *)
Lemma store_merge_Exc upd m p g e g2 :
  store_merge upd m p g = (Exc e, g2) -> g2 = g.
Proof.
  unfold store_merge. destruct (identity p) as [key|]; [|intros [= _ <-]; reflexivity].
  destruct (list_find _ (nodes g)) as [[i n]|]; [discriminate|].
  destruct (decide _); [intros [= _ <-]; reflexivity | discriminate].
Qed.

Lemma later_update ls key a g :
  later g (Graph (map (fun n => if decide (has_labels ls key n) then set_props a n else n)
                      (nodes g)) (rels g)).
Proof.
  split; [|split]; simpl.
  - intros i n Hn. rewrite list_lookup_fmap, Hn. simpl.
    eexists. split; [reflexivity|]. destruct (decide _); split; reflexivity.
  - reflexivity.
  - intros ls' key' i j _ _ (n' & Hn' & Hm). simpl in Hn'.
    rewrite list_lookup_fmap in Hn'. destruct (nodes g !! j) as [n|] eqn:E; [|discriminate].
    injection Hn' as <-. exists n. split; [exact E|].
    destruct (decide _); exact Hm.
Qed.

Lemma later_append ls key a g :
  ~ Exists (claims ls key) (nodes g) ->
  later g (Graph (nodes g ++ [Node ls key a]) (rels g)).
Proof.
  intros Hfree. split; [|split]; simpl.
  - intros i n Hn. exists n. split; [|split; reflexivity].
    rewrite lookup_app_l; [exact Hn | eapply lookup_lt_Some, Hn].
  - reflexivity.
  - intros ls' key' i j Hne (ni & Hni & Hmi) (n' & Hn' & Hm). simpl in Hn'.
    destruct (decide (j < List.length (nodes g))%nat) as [Hlt|Hge].
    + rewrite lookup_app_l in Hn' by exact Hlt. exists n'. auto.
    + rewrite lookup_app_r in Hn' by lia.
      destruct (j - List.length (nodes g))%nat; [|discriminate].
      injection Hn' as <-. exfalso. apply Hfree.
      apply Exists_exists. exists ni. split; [eapply list_elem_of_lookup_2, Hni|].
      destruct Hm as [Hk Hsub]. simpl in Hk, Hsub.
      destruct Hmi as [Hki Hfi].
      eapply has_labels_claims; [exact Hne | split; [congruence | exact Hfi] | exact Hsub].
Qed.

Lemma later_merge upd m p g r g2 : store_merge upd m p g = (r, g2) -> later g g2.
Proof.
  destruct r as [a|e]; intros H.
  - apply store_merge_Val in H.
    destruct H as (key & _ & [[_ ->] | (_ & Hfree & _ & ->)]).
    + destruct upd; [apply later_update | apply later_refl].
    + apply later_append, Hfree.
  - apply store_merge_Exc in H. subst. apply later_refl.
Qed.

Lemma later_get_or_none m i g r g2 : store_get_or_none m i g = (r, g2) -> later g g2.
Proof.
  unfold store_get_or_none. destruct (py_str i); intros [= _ <-]; apply later_refl.
Qed.

Lemma later_connect r a b g x g2 : store_connect r a b g = (x, g2) -> later g g2.
Proof.
  unfold store_connect. destruct (decide _) as [Hin|Hnin]; intros [= _ <-]; [apply later_refl|].
  split; [|split]; simpl.
  - intros i n Hn. exists n. split; [exact Hn | split; reflexivity].
  - intros y Hy. apply elem_of_app. left. exact Hy.
  - intros ls key i j _ _ H. exact H.
Qed.

Lemma later_add_label i l g r g2 : store_add_label i l g = (r, g2) -> later g g2.
Proof.
  unfold store_add_label. destruct (nodes g !! i) as [n|] eqn:E; [|intros [= _ <-]; apply later_refl].
  destruct (decide (l ∈ n_labels n)) as [Hin|Hnin]; [intros [= _ <-]; apply later_refl|].
  destruct (decide (Exists _ (nodes g))) as [Hex|Hfree]; intros [= _ <-]; [apply later_refl|].
  assert (Hi : (i < List.length (nodes g))%nat) by (eapply lookup_lt_Some, E).
  split; [|split]; simpl.
  - intros j nj Hj. destruct (decide (j = i)) as [->|Hne].
    + rewrite list_lookup_insert_eq by exact Hi. eexists. split; [reflexivity|].
      simpl. assert (nj = n) as -> by congruence. split; [reflexivity|].
      intros y Hy. apply elem_of_app. left. exact Hy.
    + rewrite list_lookup_insert_ne by congruence. exists nj. split; [exact Hj | split; reflexivity].
  - reflexivity.
  - intros ls key i0 j Hne (n0 & Hn0 & Hm0) (n' & Hn' & Hm). simpl in Hn'.
    destruct (decide (j = i)) as [->|Hji].
    + rewrite list_lookup_insert_eq in Hn' by exact Hi. injection Hn' as <-.
      exists n. split; [exact E|]. destruct Hm as [Hk Hf]. simpl in Hk, Hf.
      split; [exact Hk|]. apply Forall_forall. intros x Hx.
      rewrite Forall_forall in Hf. specialize (Hf x Hx).
      apply elem_of_app in Hf. destruct Hf as [Hf|Hf]; [exact Hf|].
      apply list_elem_of_singleton in Hf. subst x. exfalso. apply Hfree.
      apply Exists_exists. exists n0. split; [eapply list_elem_of_lookup_2, Hn0|].
      destruct Hm0 as [Hk0 Hf0]. split; [congruence|].
      apply Exists_cons. left. rewrite Forall_forall in Hf0. apply Hf0, Hx.
    + rewrite list_lookup_insert_ne in Hn' by congruence. exists n'. auto.
Qed.

Section StoreGrows.
Context (feed teiid : pyval -> res pyval) (parse : pyval -> res element).
Let S := store_services feed teiid parse.

Lemma grows_refl w : grows w w.
Proof. apply later_refl. Qed.

Lemma grows_trans a b c : grows a b -> grows b c -> grows a c.
Proof. apply later_trans. Qed.

Lemma call_store_grows {A} c (op : graph -> res A * graph) :
  (forall g r g2, op g = (r, g2) -> later g g2) -> respects grows (call_store c op).
Proof.
  intros Hop w o w'. rewrite call_store_eq. intros [= _ <-]. unfold grows. simpl.
  eapply Hop. apply surjective_pairing.
Qed.

Lemma call_ext_grows {A} c (r : res A) : respects grows (@call_ext graph A c r).
Proof. intros w o w'. rewrite call_ext_eq. intros [= _ <-]. apply later_refl. Qed.


Lemma upsert_container_build_grows p i : respects grows (upsert_container_build S p i).
Proof.
  apply upsert_container_build_respects; try apply grows_refl; try apply grows_trans; intros.
  - apply call_store_grows. intros g r g2. apply later_merge.
  - apply call_store_grows. intros g r g2. apply later_get_or_none.
  - apply call_store_grows. intros g r g2. apply later_add_label.
Qed.

Lemma process_event_grows fm_event : respects grows (process_event S fm_event).
Proof.
  apply process_event_respects; try apply grows_refl; try apply grows_trans; intros.
  - apply call_ext_grows.
  - apply call_store_grows. intros g r g2. apply later_merge.
  - apply call_store_grows. intros g r g2. apply later_get_or_none.
  - apply call_store_grows. intros g r g2. apply later_add_label.
  - apply call_store_grows. intros g r g2. apply later_connect.
  - apply call_store_grows. intros g r g2. apply later_merge.
  - apply call_store_grows. intros g r g2. apply later_merge.
  - apply call_store_grows. intros g r g2. apply later_connect.
Qed.

Lemma scrape_from_grows fuel u : respects grows (scrape_from S fuel u).
Proof.
  apply scrape_from_respects; try apply grows_refl; try apply grows_trans; intros.
  - apply call_ext_grows.
  - apply call_store_grows. intros g r g2. apply later_merge.
  - apply call_store_grows. intros g r g2. apply later_get_or_none.
  - apply call_store_grows. intros g r g2. apply later_add_label.
  - apply call_store_grows. intros g r g2. apply later_connect.
  - apply call_store_grows. intros g r g2. apply later_merge.
  - apply call_store_grows. intros g r g2. apply later_merge.
  - apply call_store_grows. intros g r g2. apply later_connect.
  - apply call_ext_grows.
Qed.
End StoreGrows.

(* ===================================================================== *)
(** ** The graph store: a second run over the state of the first *)
(* ===================================================================== *)

Lemma shape_lookup s f i :
  shape s = shape f ->
  (fun n => (n_labels n, n_id n)) <$> nodes s !! i
  = (fun n => (n_labels n, n_id n)) <$> nodes f !! i.
Proof.
  unfold shape. intros [= H _]. rewrite <- !list_lookup_fmap. rewrite H. reflexivity.
Qed.

Lemma shape_matches s f ls key i :
  shape s = shape f -> matches_at ls key s i -> matches_at ls key f i.
Proof.
  intros Hs (n & Hn & Hm). pose proof (shape_lookup s f i Hs) as H. rewrite Hn in H.
  destruct (nodes f !! i) as [n'|] eqn:E; [|discriminate]. simpl in H. injection H as Hl Hid.
  exists n'. split; [exact E|]. eapply has_labels_same; [| |exact Hm]; congruence.
Qed.

Lemma shape_update ls key a g :
  shape (Graph (map (fun n => if decide (has_labels ls key n) then set_props a n else n)
                    (nodes g)) (rels g)) = shape g.
Proof.
  unfold shape. simpl. f_equal. rewrite <- list_fmap_compose. apply list_fmap_ext.
  intros i n _. simpl. destruct (decide _); reflexivity.
Qed.

(** The first node of a type with an identity has the same number in two
    stores in which the same nodes are of the type with the identity. *)
Lemma list_find_matches ls key g g' a n :
  (forall j, matches_at ls key g j <-> matches_at ls key g' j) ->
  list_find (has_labels ls key) (nodes g) = Some (a, n) ->
  exists n', list_find (has_labels ls key) (nodes g') = Some (a, n').
Proof.
  intros Hiff H. apply list_find_Some in H. destruct H as (Hn & Hm & Hmin).
  destruct (proj1 (Hiff a)) as (n' & Hn' & Hm'); [exists n; auto|].
  exists n'. apply list_find_Some. split; [exact Hn'|]. split; [exact Hm'|].
  intros j y Hy Hlt Hmy. destruct (proj2 (Hiff j)) as (x & Hx & Hmx); [exists y; auto|].
  exact (Hmin j x Hx Hlt Hmx).
Qed.

(** After a merge, the node it returns is the first of the type with the
    identity. *)
Lemma merge_first_match upd m p g a g2 key :
  store_merge upd m p g = (Val a, g2) -> identity p = Some key ->
  exists n, list_find (has_labels (inherited_labels m) key) (nodes g2) = Some (a, n).
Proof.
  intros H Hkey. apply store_merge_Val in H. destruct H as (key' & Hkey' & H).
  assert (key' = key) as -> by congruence.
  destruct H as [[(n & Hn) ->] | (Hnone & _ & -> & ->)].
  - destruct upd; [|eauto].
    eapply list_find_matches; [|exact Hn]. intros j. split.
    + eapply later_matches, later_update.
    + intros (n' & Hn' & Hm). simpl in Hn'. rewrite list_lookup_fmap in Hn'.
      destruct (nodes g !! j) as [x|] eqn:E; [|discriminate]. injection Hn' as <-.
      exists x. split; [exact E|]. destruct (decide _); exact Hm.
  - simpl. eexists. apply list_find_Some. split; [apply list_lookup_middle; reflexivity|].
    split.
    + split; [reflexivity|]. simpl. apply Forall_forall. auto.
    + intros j y Hy Hlt. rewrite lookup_app_l in Hy by exact Hlt.
      rewrite list_find_None, Forall_forall in Hnone. apply Hnone.
      eapply list_elem_of_lookup_2, Hy.
Qed.

(** The nodes after a create-or-update: those of the type with the
    identity hold the new attributes over the old ones, the others are as
    they were. *)
Lemma merge_true_lookup m p g a g2 key :
  store_merge true m p g = (Val a, g2) -> identity p = Some key ->
  forall i n2, nodes g2 !! i = Some n2 ->
    (has_labels (inherited_labels m) key n2 /\
     forall k, n_props n2 !! k =
               match attributes p !! k with
               | Some v => Some v
               | None => nodes g !! i ≫= (fun n => n_props n !! k)
               end) \/
    (~ has_labels (inherited_labels m) key n2 /\ nodes g !! i = Some n2).
Proof.
  intros H Hkey. apply store_merge_Val in H. destruct H as (key' & Hkey' & H).
  assert (key' = key) as -> by congruence.
  destruct H as [[_ ->] | (Hnone & _ & _ & ->)]; intros i n2 Hi; simpl in Hi.
  - rewrite list_lookup_fmap in Hi. destruct (nodes g !! i) as [n|] eqn:E; [|discriminate].
    injection Hi as <-. destruct (decide (has_labels (inherited_labels m) key n)) as [Hm|Hm].
    + left. split; [exact Hm|]. intros k. simpl.
      destruct (attributes p !! k) as [v|] eqn:Ek.
      * apply lookup_union_Some_l. exact Ek.
      * apply lookup_union_r. exact Ek.
    + right. auto.
  - destruct (decide (i < List.length (nodes g))%nat) as [Hlt|Hge].
    + rewrite lookup_app_l in Hi by exact Hlt. right. split; [|exact Hi].
      rewrite list_find_None, Forall_forall in Hnone. apply Hnone.
      eapply list_elem_of_lookup_2, Hi.
    + rewrite lookup_app_r in Hi by lia.
      destruct (i - List.length (nodes g))%nat eqn:Ei; [|discriminate].
      injection Hi as <-. left. split.
      * split; [reflexivity|]. simpl. apply Forall_forall. auto.
      * intros k. simpl. rewrite (lookup_ge_None_2 (nodes g) i) by lia. simpl.
        destruct (attributes p !! k); reflexivity.
Qed.

(** The nodes after a get-or-create are those before, with one more at
    most. *)
Lemma merge_false_lookup m p g a g2 :
  store_merge false m p g = (Val a, g2) ->
  forall i n, nodes g !! i = Some n -> nodes g2 !! i = Some n.
Proof.
  intros H. apply store_merge_Val in H.
  destruct H as (key & _ & [[_ ->] | (_ & _ & _ & ->)]); intros i n Hi; [exact Hi|].
  simpl. rewrite lookup_app_l; [exact Hi | eapply lookup_lt_Some, Hi].
Qed.

Lemma attributes_from_extend f s s2 s' :
  (forall i n, nodes s !! i = Some n ->
               exists n2, nodes s2 !! i = Some n2 /\ n_props n2 = n_props n) ->
  attributes_from f s s' -> attributes_from f s2 s'.
Proof.
  intros Hext H i n' k Hn'. destruct (H i n' k Hn') as [(n & Hn & Hk) | Hf]; [|right; exact Hf].
  left. destruct (Hext i n Hn) as (n2 & Hn2 & Hp). exists n2. split; [exact Hn2|]. congruence.
Qed.

(** The matching nodes of a store at the end of whose future lies [f], in
    a store of the shape of [f]. *)
Lemma replay_matches f s2 s' ls key a n :
  ls <> [] -> later s2 f -> shape s' = shape f ->
  list_find (has_labels ls key) (nodes s2) = Some (a, n) ->
  forall j, matches_at ls key s2 j <-> matches_at ls key s' j.
Proof.
  intros Hne Hlater Hshape Hfind j.
  apply list_find_Some in Hfind. destruct Hfind as (Hn & Hm & _).
  split.
  - intros H. eapply shape_matches; [symmetry; exact Hshape|].
    eapply later_matches; eassumption.
  - intros H. apply (shape_matches _ _ _ _ _ Hshape) in H.
    destruct Hlater as (_ & _ & Hc). eapply Hc; [exact Hne | exists n; eauto | exact H].
Qed.

(** A merge that went through in the first run goes through in the second
    and returns the same node. *)
Lemma merge_replay upd m p f s s' a s2 :
  store_merge upd m p s = (Val a, s2) ->
  later s2 f -> replays f s s' ->
  exists s2', store_merge upd m p s' = (Val a, s2') /\ replays f s2 s2'.
Proof.
  intros H Hlater [Hshape Hattr].
  pose proof H as Hval. apply store_merge_Val in Hval. destruct Hval as (key & Hkey & _).
  destruct (merge_first_match _ _ _ _ _ _ _ H Hkey) as (n2 & Hfind).
  pose proof (replay_matches f s2 s' _ key a n2 (inherited_labels_nonempty m)
                Hlater Hshape Hfind) as Hiff.
  destruct (list_find_matches _ _ _ _ _ _ Hiff Hfind) as (n' & Hfind').
  unfold store_merge at 1. rewrite Hkey. simpl. rewrite Hfind'.
  eexists. split; [reflexivity|].
  destruct upd.
  - split; [rewrite shape_update; exact Hshape|].
    intros i x k Hx. simpl in Hx. rewrite list_lookup_fmap in Hx.
    destruct (nodes s' !! i) as [y|] eqn:Ey; [|discriminate]. injection Hx as <-.
    destruct (decide (has_labels (inherited_labels m) key y)) as [Hy|Hy].
    + destruct (proj2 (Hiff i)) as (x2 & Hx2 & Hm2); [exists y; auto|].
      destruct (merge_true_lookup _ _ _ _ _ _ H Hkey i x2 Hx2) as [[_ Hprops] | [Hno _]];
        [|contradiction].
      simpl. destruct (attributes p !! k) as [v|] eqn:Ek.
      * left. exists x2. split; [exact Hx2|]. rewrite Hprops, Ek.
        apply lookup_union_Some_l. exact Ek.
      * rewrite (lookup_union_r _ _ _ Ek).
        destruct (Hattr i y k Ey) as [(n0 & Hn0 & Hk0) | Hf]; [|right; exact Hf].
        left. exists x2. split; [exact Hx2|]. rewrite Hprops, Ek, Hn0. simpl. exact Hk0.
    + destruct (Hattr i y k Ey) as [(n0 & Hn0 & Hk0) | Hf]; [|right; exact Hf].
      left. assert (Hlt : later s s2) by (eapply later_merge, H).
      destruct (proj1 Hlt i n0 Hn0) as (x2 & Hx2 & _).
      destruct (merge_true_lookup _ _ _ _ _ _ H Hkey i x2 Hx2) as [[Hyes _] | [_ Hsame]].
      * exfalso. apply Hy. destruct (proj1 (Hiff i)) as (y' & Hy' & Hm'); [exists x2; auto|].
        congruence.
      * exists x2. split; [exact Hx2|]. congruence.
  - split; [exact Hshape|].
    eapply attributes_from_extend; [|exact Hattr].
    intros i n Hn. exists n. split; [|reflexivity]. eapply merge_false_lookup; eassumption.
Qed.

(** A relationship made in the first run is there in the second. *)
Lemma connect_replay r a b f s s' x s2 :
  store_connect r a b s = (x, s2) ->
  later s2 f -> replays f s s' ->
  store_connect r a b s' = (Val tt, s') /\ replays f s2 s' /\ x = Val tt.
Proof.
  intros H Hlater [Hshape Hattr].
  assert (Hin : (r, a, b) ∈ rels s2 /\ nodes s2 = nodes s /\ x = Val tt).
  { unfold store_connect in H. destruct (decide _) as [Hin|Hnin]; injection H as <- <-.
    - auto.
    - simpl. split; [|auto]. apply elem_of_app. right. apply list_elem_of_singleton. reflexivity. }
  destruct Hin as (Hin & Hnodes & ->).
  assert (Hin' : (r, a, b) ∈ rels s').
  { destruct Hlater as (_ & Hb & _). apply Hb in Hin.
    unfold shape in Hshape. injection Hshape as _ ->. exact Hin. }
  unfold store_connect. destruct (decide _) as [_|Hnin]; [|contradiction].
  split; [reflexivity|]. split; [|reflexivity]. split; [exact Hshape|].
  eapply attributes_from_extend; [|exact Hattr].
  intros i n Hn. exists n. rewrite Hnodes. auto.
Qed.

Lemma add_label_props i l g r g2 :
  store_add_label i l g = (r, g2) ->
  forall j n, nodes g !! j = Some n ->
              exists n2, nodes g2 !! j = Some n2 /\ n_props n2 = n_props n.
Proof.
  unfold store_add_label. destruct (nodes g !! i) as [x|] eqn:E; [|intros [= _ <-]; eauto].
  destruct (decide _) as [Hin|Hnin]; [intros [= _ <-]; eauto|].
  destruct (decide _) as [Hex|Hfree]; intros [= _ <-]; [eauto|].
  intros j n Hn. simpl. destruct (decide (j = i)) as [->|Hne].
  - rewrite list_lookup_insert_eq by (eapply lookup_lt_Some, E).
    eexists. split; [reflexivity|]. simpl. congruence.
  - rewrite list_lookup_insert_ne by congruence. eauto.
Qed.

Section Oblivious.
Context {G : Type}.

Lemma oblivious_ret {A} (a : A) : oblivious (@ret G A a).
Proof. exists (Ok a), []. intros [g l]. unfold ret. simpl. rewrite app_nil_r. reflexivity. Qed.

Lemma oblivious_raise {A} (e : exn) : oblivious (@raise G A e).
Proof. exists (Raise e), []. intros [g l]. unfold raise. simpl. rewrite app_nil_r. reflexivity. Qed.

Lemma oblivious_lift {A} (r : res A) : oblivious (@lift G A r).
Proof.
  exists (match r with Val a => Ok a | Exc e => Raise e end), [].
  intros [g l]. unfold lift. simpl. rewrite app_nil_r. destruct r; reflexivity.
Qed.

Lemma oblivious_call_ext {A} c (r : res A) : oblivious (@call_ext G A c r).
Proof.
  exists (match r with Val a => Ok a | Exc e => Raise e end), [c].
  intros w. apply call_ext_eq.
Qed.

Lemma oblivious_bind {A B} (m : M G A) (k : A -> M G B) :
  oblivious m -> (forall a, oblivious (k a)) -> oblivious (bind m k).
Proof.
  intros (o & l & Hm) Hk. destruct o as [a|e|].
  - destruct (Hk a) as (o2 & l2 & Hka). exists o2, (l ++ l2). intros w.
    unfold bind. rewrite Hm, Hka. simpl. rewrite app_assoc. reflexivity.
  - exists (Raise e), l. intros w. unfold bind. rewrite Hm. reflexivity.
  - exists OutOfFuel, l. intros w. unfold bind. rewrite Hm. reflexivity.
Qed.

Lemma oblivious_try_except {A} (m : M G A) caught (h : M G A) :
  oblivious m -> oblivious h -> oblivious (try_except m caught h).
Proof.
  intros (o & l & Hm) (o2 & l2 & Hh). destruct o as [a|e|].
  - exists (Ok a), l. intros w. unfold try_except. rewrite Hm. reflexivity.
  - destruct (caught e) eqn:E.
    + exists o2, (l ++ l2). intros w. unfold try_except. rewrite Hm, E, Hh. simpl.
      rewrite app_assoc. reflexivity.
    + exists (Raise e), l. intros w. unfold try_except. rewrite Hm, E. reflexivity.
  - exists OutOfFuel, l. intros w. unfold try_except. rewrite Hm. reflexivity.
Qed.
End Oblivious.

Ltac oblivious_step :=
  lazymatch goal with
  | |- oblivious (bind _ _) => apply oblivious_bind; [| intros ?]
  | |- oblivious (ret _) => apply oblivious_ret
  | |- oblivious (raise _) => apply oblivious_raise
  | |- oblivious (lift _) => apply oblivious_lift
  | |- oblivious (call_ext _ _) => apply oblivious_call_ext
  | |- oblivious (try_except _ _ _) => apply oblivious_try_except
  | |- oblivious (if ?b then _ else _) => destruct b
  | |- oblivious (match ?x with Some _ => _ | None => _ end) => destruct x
  end.

Section ObliviousSteps.
Context {G : Type} (S : services G).

Lemma search_key_is_int_oblivious fm_event : oblivious (@search_key_is_int G fm_event).
Proof. unfold search_key_is_int. repeat oblivious_step. Qed.

Lemma event_params_oblivious fm_event : oblivious (@event_params G fm_event).
Proof. unfold event_params. repeat oblivious_step. Qed.

Lemma faulty_build_oblivious bd : oblivious (@faulty_build G bd).
Proof. unfold faulty_build. repeat oblivious_step. Qed.

Lemma get_koji_task_result_oblivious t : oblivious (get_koji_task_result S t).
Proof. unfold get_koji_task_result. repeat oblivious_step. Qed.

Lemma extract_build_id_oblivious root : oblivious (@extract_build_id G root).
Proof. unfold extract_build_id. repeat oblivious_step. Qed.
End ObliviousSteps.

Section Replay.
Context (f : graph).

Lemma replayable_oblivious {A} (m : M graph A) : oblivious m -> replayable f m.
Proof.
  intros (o & l & Hm) w w' a w1 H _ Hr. rewrite Hm in H. injection H as -> <-.
  eexists. split; [apply Hm|]. exact Hr.
Qed.

Lemma replayable_ret {A} (a : A) : replayable f (ret a).
Proof. apply replayable_oblivious, oblivious_ret. Qed.

Lemma replayable_lift {A} (r : res A) : replayable f (lift r).
Proof. apply replayable_oblivious, oblivious_lift. Qed.

Lemma replayable_bind {A B} (m : M graph A) (k : A -> M graph B) :
  replayable f m -> (forall a, respects grows (k a)) -> (forall a, replayable f (k a)) ->
  replayable f (bind m k).
Proof.
  intros Hm Hg Hk w w' b w2 H Hlater Hr. unfold bind in H.
  destruct (m w) as [[a|e|] w1] eqn:E; [|discriminate..].
  assert (Hl1 : later (store w1) f).
  { eapply later_trans; [eapply (Hg a), H | exact Hlater]. }
  destruct (Hm w w' a w1 E Hl1 Hr) as (w1' & E' & Hr1).
  destruct (Hk a w1 w1' b w2 H Hlater Hr1) as (w2' & E2 & Hr2).
  exists w2'. split; [|exact Hr2]. unfold bind. rewrite E'. exact E2.
Qed.

Lemma replayable_for_each {A} (l : list A) (body : A -> M graph unit) :
  (forall x, respects grows (body x)) -> (forall x, replayable f (body x)) ->
  replayable f (for_each l body).
Proof.
  intros Hg Hb. induction l as [|x l IH]; simpl.
  - apply replayable_ret.
  - apply replayable_bind; [apply Hb | | intros _; exact IH].
    intros _. apply respects_for_each; [apply grows_refl | apply grows_trans | exact Hg].
Qed.

Lemma call_merge_replayable upd m p c : replayable f (call_store c (store_merge upd m p)).
Proof.
  intros w w' a w1 E Hl Hr. rewrite call_store_eq in E.
  destruct (store_merge upd m p (store w)) as [[x|e] s2] eqn:Em; simpl in E; [|discriminate].
  injection E as -> <-. simpl in Hl.
  destruct (merge_replay _ _ _ _ _ _ _ _ Em Hl Hr) as (s2' & Em' & Hr2).
  eexists. split; [rewrite call_store_eq, Em'; reflexivity | exact Hr2].
Qed.

Lemma call_connect_replayable r a b c : replayable f (call_store c (store_connect r a b)).
Proof.
  intros w w' x w1 E Hl Hr. rewrite call_store_eq in E.
  destruct (store_connect r a b (store w)) as [y s2] eqn:Ec; simpl in E.
  injection E as E1 <-. simpl in Hl.
  destruct (connect_replay r a b f (store w) (store w') y s2 Ec Hl Hr) as (Ec' & Hr2 & ->).
  injection E1 as <-.
  eexists. split; [rewrite call_store_eq, Ec'; reflexivity | exact Hr2].
Qed.
End Replay.

Lemma oblivious_grows {A} (m : M graph A) : oblivious m -> respects grows m.
Proof.
  intros (o & l & Hm) w o' w' H. rewrite Hm in H. injection H as _ <-. apply later_refl.
Qed.

(** A store that replays the final state from the final state is that
    state. *)
Lemma replays_final f s' : replays f f s' -> s' = f.
Proof.
  intros [Hshape Hattr]. destruct s' as [ns' rs'], f as [ns rs].
  pose proof Hshape as Hs. unfold shape in Hs. simpl in Hs. injection Hs as Hn ->.
  f_equal. apply list_eq. intros i.
  pose proof (shape_lookup _ _ i Hshape) as Hi. simpl in Hi.
  destruct (ns' !! i) as [n'|] eqn:E'; destruct (ns !! i) as [n|] eqn:E; try discriminate;
    [|reflexivity].
  simpl in Hi. injection Hi as Hl Hid. f_equal.
  destruct n' as [l' i' p'], n as [l0 i0 p0]. simpl in *. subst. f_equal.
  apply map_eq. intros k.
  destruct (Hattr i (Node l0 i0 p') k E') as [(x & Hx & Hk) | (x & Hx & Hk)];
    simpl in Hx; rewrite E in Hx; injection Hx as <-; exact Hk.
Qed.

Lemma replays_start f s : replays f s f.
Proof.
  split; [reflexivity|]. intros i n' k Hn'. right. exists n'. auto.
Qed.

Ltac solve_grows :=
  unfold process_build, faulty_build, extract_build_id, get_koji_task_result,
    upsert_container_build, event_params, search_key_is_int;
  repeat first
    [ respects_step
    | apply call_ext_grows
    | apply call_store_grows; intros ? ? ?;
      first [apply later_merge | apply later_get_or_none | apply later_add_label
            | apply later_connect] ].

Ltac replay_step :=
  lazymatch goal with
  | |- replayable _ (bind _ _) => apply replayable_bind; [ | intros ?; solve_grows | intros ? ]
  | |- replayable _ (ret _) => apply replayable_ret
  | |- replayable _ (lift _) => apply replayable_lift
  | |- replayable _ (if ?b then _ else _) => destruct b
  | |- replayable _ (for_each _ _) => apply replayable_for_each; [intros ?; solve_grows | intros ?]
  | |- replayable _ (faulty_build _) => apply replayable_oblivious, faulty_build_oblivious
  | |- replayable _ (search_key_is_int _) => apply replayable_oblivious, search_key_is_int_oblivious
  | |- replayable _ (event_params _) => apply replayable_oblivious, event_params_oblivious
  | |- replayable _ (extract_build_id _) => apply replayable_oblivious, extract_build_id_oblivious
  | |- replayable _ (get_koji_task_result _ _) =>
      apply replayable_oblivious, get_koji_task_result_oblivious
  | |- replayable _ (call_ext _ _) => apply replayable_oblivious, oblivious_call_ext
  | |- replayable _ (call_store _ (connect _ _ _ _)) => apply call_connect_replayable
  | |- replayable _ (call_store _ (conditional_connect _ _ _ _)) => apply call_connect_replayable
  | |- replayable _ (call_store _ (create_or_update _ _ _)) => apply call_merge_replayable
  | |- replayable _ (call_store _ (get_or_create _ _ _)) => apply call_merge_replayable
  end.

Section SecondRun.
Context (feed teiid : pyval -> res pyval) (parse : pyval -> res element).
Context (f : graph).
Let S := store_services feed teiid parse.

(** The upsert of a build with its repair: the second run finds the node
    the first run left, under both labels, and updates it. *)
Lemma upsert_container_build_replayable p id_ :
  replayable f (upsert_container_build S p id_).
Proof.
  intros w w' a w1 E Hl Hr.
  assert (Hgoal : forall s0 s4,
             store_merge true ContainerKojiBuild p s0 = (Val a, s4) ->
             later s4 f -> replays f s0 (store w') ->
             exists w1', upsert_container_build S p id_ w' = (Ok a, w1') /\
                         replays f s4 (store w1')).
  { intros s0 s4 Em Hl4 Hr0.
    destruct (merge_replay _ _ _ _ _ _ _ _ Em Hl4 Hr0) as (s2' & Em' & Hr2).
    exists (World s2' (calls w' ++ [Call_create_or_update ContainerKojiBuild p])).
    split; [|exact Hr2].
    unfold upsert_container_build, try_except. rewrite call_store_eq.
    change (create_or_update S ContainerKojiBuild p (store w'))
      with (store_merge true ContainerKojiBuild p (store w')).
    rewrite Em'. reflexivity. }
  unfold upsert_container_build, try_except in E. rewrite call_store_eq in E.
  change (create_or_update S ContainerKojiBuild p (store w))
    with (store_merge true ContainerKojiBuild p (store w)) in E.
  destruct (store_merge true ContainerKojiBuild p (store w)) as [[x|e] s1] eqn:E1;
    cbn [fst snd] in E.
  - injection E as -> <-. simpl in Hl. eapply Hgoal; eauto.
  - apply store_merge_Exc in E1. subst s1.
    destruct (bool_decide (e = ConstraintValidationFailed)); [|discriminate].
    unfold bind in E. rewrite call_store_eq in E.
    change (get_or_none S KojiBuild id_) with (store_get_or_none KojiBuild id_) in E.
    cbn [store calls] in E.
    assert (Hg : (store_get_or_none KojiBuild id_ (store w)).2 = store w).
    { unfold store_get_or_none. destruct (py_str id_); reflexivity. }
    rewrite Hg in E.
    destruct (store_get_or_none KojiBuild id_ (store w)).1 as [[b|]|e']; try discriminate.
    rewrite call_store_eq in E. cbn [store calls] in E.
    change (add_label S b (label_of ContainerKojiBuild))
      with (store_add_label b (label_of ContainerKojiBuild)) in E.
    destruct (store_add_label b (label_of ContainerKojiBuild) (store w)) as [[[]|e'] s3] eqn:E3;
      cbn [fst snd] in E; [|discriminate].
    rewrite call_store_eq in E. cbn [store calls] in E.
    change (create_or_update S ContainerKojiBuild p s3)
      with (store_merge true ContainerKojiBuild p s3) in E.
    destruct (store_merge true ContainerKojiBuild p s3) as [[x|e'] s4] eqn:E4;
      cbn [fst snd] in E; [|discriminate].
    injection E as -> <-. simpl in Hl.
    eapply Hgoal; [exact E4 | exact Hl |].
    destruct Hr as [Hshape Hattr]. split; [exact Hshape|].
    eapply attributes_from_extend; [|exact Hattr].
    eapply add_label_props, E3.
Qed.

Lemma process_build_replayable ev bd : replayable f (process_build S ev bd).
Proof.
  pose proof grows_refl as Hrefl. pose proof grows_trans as Htrans.
  unfold process_build.
  repeat first [replay_step | apply upsert_container_build_replayable].
Qed.

Lemma process_event_replayable fm_event : replayable f (process_event S fm_event).
Proof.
  pose proof grows_refl as Hrefl. pose proof grows_trans as Htrans.
  unfold process_event.
  repeat first [replay_step | apply process_build_replayable].
Qed.

Lemma scrape_from_replayable fuel u : replayable f (scrape_from S fuel u).
Proof.
  pose proof grows_refl as Hrefl. pose proof grows_trans as Htrans.
  revert u. induction fuel as [|fuel IH]; intros u; simpl.
  - intros w w' a w1 H. discriminate H.
  - repeat first [replay_step | apply process_event_replayable | apply IH
                 | apply (scrape_from_grows feed teiid parse)
                 | apply (process_event_grows feed teiid parse)].
Qed.

End SecondRun.

(** C1. A run of the pipeline that completes, followed by a second run
    over the same feed, task table and parser: the second run completes
    too and leaves the store exactly as the first run left it, node for
    node, attribute for attribute and relationship for relationship, so
    that it adds no Event, Advisory or Build node and no [triggered_by] or
    [triggered_builds] relationship. *)
Theorem second_run_changes_nothing
        (feed teiid : pyval -> res pyval) (parse : pyval -> res element)
        (fuel : nat) (since until : pyval) (w w1 : world graph) :
  run (store_services feed teiid parse) fuel since until w = (Ok tt, w1) ->
  exists w2,
    run (store_services feed teiid parse) fuel since until w1 = (Ok tt, w2) /\
    store w2 = store w1.
Proof.
  intros H. unfold run, query_api_and_update_neo4j in *.
  destruct (scrape_from_replayable feed teiid parse (store w1) fuel
              (PStr freshmaker_url) w w1 tt w1 H) as (w2 & H2 & Hr).
  - apply later_refl.
  - apply replays_start.
  - exists w2. split; [exact H2|]. apply replays_final. exact Hr.
Qed.

(** Two runs of the end-to-end scenario, and two runs over a store that
    holds the build as a plain [KojiBuild]. *)
Lemma second_run_changes_nothing_witness :
  (exists w2,
      run scenario_services 3 PNone PNone (run scenario_services 3 PNone PNone start).2
      = (Ok tt, w2) /\
      store w2 = store (run scenario_services 3 PNone PNone start).2) /\
  (exists w2,
      run scenario_services 3 PNone PNone
          (run scenario_services 3 PNone PNone (World generic_build_store [])).2
      = (Ok tt, w2) /\
      store w2 = store (run scenario_services 3 PNone PNone (World generic_build_store [])).2).
Proof.
  split.
  - apply (second_run_changes_nothing _ _ _ 3 PNone PNone start). vm_compute. reflexivity.
  - apply (second_run_changes_nothing _ _ _ 3 PNone PNone (World generic_build_store [])).
    vm_compute. reflexivity.
Defined.

(** The end-to-end scenario: Advisory "7", Event "42" triggered by it, the
    container build "55" with its [original_nvr], triggered by the event. *)
Example end_to_end_scenario :
  map (fun n => (n_labels n, n_id n)) (nodes (store (run scenario_services 3 PNone PNone start).2))
  = [(["FreshmakerEvent"], "42"); (["Advisory"], "7");
     (["KojiBuild"; "ContainerKojiBuild"], "55")] /\
  rels (store (run scenario_services 3 PNone PNone start).2)
  = [(triggered_by_advisory, 0%nat, 1%nat); (triggered_container_builds, 0%nat, 2%nat)] /\
  (nodes (store (run scenario_services 3 PNone PNone start).2) !! 2%nat)
    ≫= (fun n => n_props n !! "original_nvr") = Some (PStr "pkg-1.0-1").
Proof. split; [|split]; vm_compute; reflexivity. Qed.

(* ===================================================================== *)
(** ** At most one Advisory per Event *)
(* ===================================================================== *)






Lemma store_merge_rels upd m p g r g2 : store_merge upd m p g = (r, g2) -> rels g2 = rels g.
Proof.
  destruct r as [a|e]; intros H; [|apply store_merge_Exc in H; subst; reflexivity].
  apply store_merge_Val in H. destruct H as (key & _ & [[_ ->] | (_ & _ & _ & ->)]).
  - destruct upd; reflexivity.
  - reflexivity.
Qed.

Lemma store_add_label_rels i l g r g2 : store_add_label i l g = (r, g2) -> rels g2 = rels g.
Proof.
  unfold store_add_label. destruct (nodes g !! i); [|intros [= _ <-]; reflexivity].
  destruct (decide _); [intros [= _ <-]; reflexivity|].
  destruct (decide _); intros [= _ <-]; reflexivity.
Qed.









Lemma rels_appended_refl (w : world graph) : rels_appended w w.
Proof. exists []. symmetry. apply app_nil_r. Qed.

Lemma rels_appended_trans (a b c : world graph) :
  rels_appended a b -> rels_appended b c -> rels_appended a c.
Proof.
  intros [l1 H1] [l2 H2]. exists (l1 ++ l2). rewrite H2, H1. symmetry. apply app_assoc.
Qed.



Lemma call_store_rels_appended {A} c (op : graph -> res A * graph) :
  (forall g r g2, op g = (r, g2) -> exists l, rels g2 = rels g ++ l) ->
  respects rels_appended (call_store c op).
Proof.
  intros Hop w o w'. rewrite call_store_eq. intros [= _ <-]. unfold rels_appended. simpl.
  eapply Hop. apply surjective_pairing.
Qed.

Lemma call_ext_rels_appended {A} c (r : res A) : respects rels_appended (@call_ext graph A c r).
Proof.
  intros w o w'. rewrite call_ext_eq. intros [= _ <-]. exists []. simpl.
  symmetry. apply app_nil_r.
Qed.

Lemma store_connect_rels r a b g x g2 :
  store_connect r a b g = (x, g2) -> exists l, rels g2 = rels g ++ l.
Proof.
  unfold store_connect. destruct (decide _); intros [= _ <-].
  - exists []. symmetry. apply app_nil_r.
  - eexists. reflexivity.
Qed.

Lemma same_rels_appended g g2 : rels g2 = rels g -> exists l, rels g2 = rels g ++ l.
Proof. intros ->. exists []. symmetry. apply app_nil_r. Qed.

Section OneAdvisory.
Context (akey : string -> string).
Context (feed teiid : pyval -> res pyval) (parse : pyval -> res element).
Let S := store_services feed teiid parse.


Lemma process_build_rels_appended ev bd : respects rels_appended (process_build S ev bd).
Proof.
  apply process_build_respects; try apply rels_appended_refl; try apply rels_appended_trans;
    intros.
  - apply call_ext_rels_appended.
  - apply call_store_rels_appended. intros g r g2 H.
    apply same_rels_appended. eapply store_merge_rels, H.
  - apply call_store_rels_appended. intros g r g2 H. apply same_rels_appended.
    unfold get_or_none, S, store_services, store_get_or_none in H.
    destruct (py_str i); injection H as _ <-; reflexivity.
  - apply call_store_rels_appended. intros g r g2 H.
    apply same_rels_appended. eapply store_add_label_rels, H.
  - apply call_store_rels_appended. intros g r g2. apply store_connect_rels.
Qed.




End OneAdvisory.

Section RespectsMore.
Context {G : Type} (R : world G -> world G -> Prop).
Hypothesis R_refl : forall w, R w w.
Hypothesis R_trans : forall a b c, R a b -> R b c -> R a c.



End RespectsMore.

Section Reachable.
Context (akey : string -> string).






End Reachable.





(* ===================================================================== *)
(** ** Error paths of an event *)
(* ===================================================================== *)

Lemma py_getitem_Exc v key e : py_getitem v key = Exc e -> e = KeyError \/ e = TypeError.
Proof.
  destruct v; simpl; try (intros [= <-]; auto).
  destruct (assoc_get key d); [discriminate | intros [= <-]; auto].
Qed.

Lemma search_key_int_Exc fm_event e :
  search_key_int fm_event = Exc e ->
  e = KeyError \/ e = TypeError \/ e = OverflowError \/ e = ValueError.
Proof.
  unfold search_key_int. destruct (py_getitem fm_event "search_key") as [k|e'] eqn:Ek.
  - destruct k as [ | b | z | f | s | l | d]; simpl;
      try (intros [= <-]; auto); try discriminate.
    + destruct f; simpl; try discriminate; intros [= <-]; auto.
    + destruct (int_of_text s); [discriminate | intros [= <-]; auto].
  - intros [= <-]. destruct (py_getitem_Exc _ _ _ Ek); auto.
Qed.

Section EventErrors.
Context {G : Type} (S : services G).

Lemma search_key_is_int_by_int fm_event (w : world G) :
  search_key_is_int fm_event w =
  (match search_key_int fm_event with
   | Val _ => Ok true
   | Exc e => if bool_decide (e = ValueError) then Ok false else Raise e
   end, w).
Proof.
  unfold search_key_is_int, search_key_int, try_except, bind, lift, ret.
  destruct (py_getitem fm_event "search_key") as [k|e]; simpl.
  - destruct (py_int k) as [z|e]; simpl; [reflexivity|]. destruct (bool_decide _); reflexivity.
  - destruct (bool_decide _); reflexivity.
Qed.

(** X1. The filter of lines 48-52 catches [ValueError] and nothing else:
    when [int(fm_event['search_key'])] raises another exception (a
    [KeyError] for a record without the key, a [TypeError] for a record
    that is no object and for a null, an array or an object as the key, an
    [OverflowError] for an infinite number), processing the event raises it
    with the store and the call log as they were, and the loop over the
    events ends there. *)
Theorem search_key_error_is_fatal (fm_event : pyval) (e : exn) (w : world G) :
  search_key_int fm_event = Exc e ->
  e <> ValueError ->
  (e = KeyError \/ e = TypeError \/ e = OverflowError) /\
  process_event S fm_event w = (Raise e, w) /\
  forall rest, for_each (fm_event :: rest) (process_event S) w = (Raise e, w).
Proof.
  intros He Hne. split.
  - destruct (search_key_int_Exc _ _ He) as [H | [H | [H | H]]]; auto. contradiction.
  - assert (H : process_event S fm_event w = (Raise e, w)).
    { unfold process_event. apply bind_raise. rewrite search_key_is_int_by_int, He.
      destruct (bool_decide_reflect (e = ValueError)); [contradiction | reflexivity]. }
    split; [exact H|]. intros rest. simpl. apply bind_raise. exact H.
Qed.

Lemma event_params_missing fm_event (w : world G) :
  Exists (fun f => exists e, py_getitem fm_event f = Exc e) event_fields ->
  exists e, event_params fm_event w = (Raise e, w).
Proof.
  intros Hex. unfold event_params, bind, lift, ret.
  repeat match goal with
         | |- context [py_getitem fm_event ?k] =>
             destruct (py_getitem fm_event k) eqn:?; [|eexists; reflexivity]
         end.
  exfalso. unfold event_fields in Hex.
  repeat (apply Exists_cons in Hex; destruct Hex as [[e He] | Hex]; [congruence|]).
  inversion Hex.
Qed.

(** X2. An event that passes the filter but lacks one of the seven fields
    read by lines 53-62 makes [process_event] raise before any call to the
    store: the store and the call log are as they were, and the loop over the
    events ends there. *)
Theorem event_with_missing_field_is_fatal (fm_event : pyval) (z : Z) (w : world G) :
  search_key_int fm_event = Val z ->
  Exists (fun f => exists e, py_getitem fm_event f = Exc e) event_fields ->
  exists e,
    process_event S fm_event w = (Raise e, w) /\
    forall rest, for_each (fm_event :: rest) (process_event S) w = (Raise e, w).
Proof.
  intros Hz Hex.
  assert (H : exists e, process_event S fm_event w = (Raise e, w)).
  { unfold process_event.
    rewrite (bind_ok _ _ w true w) by (rewrite search_key_is_int_by_int, Hz; reflexivity).
    simpl. destruct (py_getitem fm_event "id") as [i|e] eqn:Ei.
    - rewrite (bind_lift_val _ i) by reflexivity.
      destruct (event_params_missing fm_event w Hex) as [e He].
      exists e. apply bind_raise. exact He.
    - exists e. apply bind_lift_exc. reflexivity. }
  destruct H as [e H]. exists e. split; [exact H|].
  intros rest. simpl. apply bind_raise. exact H.
Qed.

(** X3. The keys of an event are read as they are needed: for an event
    that passes the filter and has its seven fields but no [builds], the
    Event node is upserted first and the exception comes after; processing
    the event never returns normally, and the call log starts with the
    create-or-update of the Event. *)
Theorem event_without_builds_is_written_then_fatal
        (fm_event k : pyval) (z : Z) (p : params) (e : exn) (w : world G) :
  py_getitem fm_event "search_key" = Val k ->
  py_int k = Val z ->
  event_params fm_event w = (Ok p, w) ->
  py_getitem fm_event "builds" = Exc e ->
  exists e' w' l,
    process_event S fm_event w = (Raise e', w') /\
    calls_since w w' = Call_create_or_update FreshmakerEvent p :: l /\
    ((exists ev g1 adv g2 g3,
         create_or_update S FreshmakerEvent p (store w) = (Val ev, g1) /\
         get_or_create S Advisory [("id_", k)] g1 = (Val adv, g2) /\
         conditional_connect S triggered_by_advisory ev adv g2 = (Val tt, g3)) ->
     e' = e /\ List.length l = 2%nat).
Proof.
  intros Hk Hz Hp Hb. unfold process_event.
  rewrite (bind_ok _ _ w true w)
    by (rewrite search_key_is_int_by_int; unfold search_key_int; rewrite Hk, Hz; reflexivity).
  simpl.
  assert (Hid : exists v, py_getitem fm_event "id" = Val v).
  { revert Hp. unfold event_params, bind, lift.
    destruct (py_getitem fm_event "id"); [eauto|discriminate]. }
  destruct Hid as [v Hid]. rewrite (bind_lift_val _ v) by exact Hid.
  rewrite (bind_ok _ _ _ _ _ Hp).
  unfold bind at 1. rewrite call_store_eq.
  destruct (create_or_update S FreshmakerEvent p (store w)) as [[ev|x] g1] eqn:E1; cbn [fst snd].
  - rewrite !(bind_lift_val _ k) by exact Hk.
    unfold bind at 1. rewrite call_store_eq. cbn [store calls].
    destruct (get_or_create S Advisory [("id_", k)] g1) as [[adv|x] g2] eqn:E2; cbn [fst snd].
    + unfold bind at 1. rewrite call_store_eq. cbn [store calls].
      destruct (conditional_connect S triggered_by_advisory ev adv g2) as [[[]|x] g3] eqn:E3;
        cbn [fst snd].
      * rewrite (bind_lift_exc _ e) by exact Hb.
        eexists _, _, _. split; [reflexivity|]. split.
        -- apply calls_since_app. cbn [calls]. rewrite <- !app_assoc. reflexivity.
        -- intros _. split; reflexivity.
      * eexists _, _, _. split; [reflexivity|]. split.
        -- apply calls_since_app. cbn [calls]. rewrite <- !app_assoc. reflexivity.
        -- intros (ev' & g1' & adv' & g2' & g3' & [= <- <-] & H2 & H3).
           rewrite E2 in H2. injection H2 as <- <-. rewrite E3 in H3. discriminate.
    + eexists _, _, _. split; [reflexivity|]. split.
      * apply calls_since_app. cbn [calls]. rewrite <- !app_assoc. reflexivity.
      * intros (ev' & g1' & adv' & g2' & g3' & [= <- <-] & H2 & _).
        rewrite E2 in H2. discriminate.
  - eexists _, _, _. split; [reflexivity|]. split.
    + apply calls_since_app. reflexivity.
    + intros (ev' & g1' & adv' & g2' & g3' & H1 & _). discriminate.
Qed.
End EventErrors.

Lemma search_key_error_is_fatal_witness :
  process_event scenario_services event_with_infinite_key start = (Raise OverflowError, start).
Proof.
  apply (search_key_error_is_fatal scenario_services event_with_infinite_key OverflowError
           start); [reflexivity | discriminate].
Defined.

Lemma event_with_missing_field_is_fatal_witness :
  exists e,
    process_event scenario_services event_without_url start = (Raise e, start) /\
    forall rest, for_each (event_without_url :: rest) (process_event scenario_services) start
                 = (Raise e, start).
Proof.
  apply (event_with_missing_field_is_fatal scenario_services event_without_url 7 start).
  - reflexivity.
  - unfold event_fields. do 6 apply Exists_cons_tl. apply Exists_cons_hd.
    exists KeyError. reflexivity.
Defined.

Lemma event_without_builds_is_written_then_fatal_witness :
  exists e' w' l,
    process_event scenario_services event_without_builds start = (Raise e', w') /\
    calls_since start w'
    = Call_create_or_update FreshmakerEvent
        [("id_", PInt 42); ("event_type_id", PInt 8); ("message_id", PStr "msg");
         ("state", PInt 2); ("state_name", PStr "COMPLETE"); ("state_reason", PNone);
         ("url", PStr "/api/1/events/x")] :: l /\
    ((exists ev g1 adv g2 g3,
         create_or_update scenario_services FreshmakerEvent
           [("id_", PInt 42); ("event_type_id", PInt 8); ("message_id", PStr "msg");
            ("state", PInt 2); ("state_name", PStr "COMPLETE"); ("state_reason", PNone);
            ("url", PStr "/api/1/events/x")] (store start) = (Val ev, g1) /\
         get_or_create scenario_services Advisory [("id_", PStr "7")] g1 = (Val adv, g2) /\
         conditional_connect scenario_services triggered_by_advisory ev adv g2 = (Val tt, g3)) ->
     e' = KeyError /\ List.length l = 2%nat).
Proof.
  apply (event_without_builds_is_written_then_fatal scenario_services event_without_builds
           (PStr "7") 7 _ KeyError start); reflexivity.
Defined.

(* ===================================================================== *)
(** ** Edge cases of a build entry *)
(* ===================================================================== *)

Section BuildEdges.
Context {G : Type} (S : services G).

(** X4. A build entry whose task resolves to a build identity but which has
    no [original_nvr] raises the exception of the missing key after the task
    lookup and before any call to the store: nothing is written for it, and
    the loop over the builds ends there. *)
Theorem build_without_original_nvr_is_fatal
        (event : nat) (bd b : pyval) (t : string) (e : exn) (w : world G) :
  resolves_to S bd b t ->
  py_getitem bd "original_nvr" = Exc e ->
  process_build S event bd w = (Raise e, World (store w) (calls w ++ [Call_teiid b])) /\
  forall rest, for_each (bd :: rest) (process_build S event) w
               = (Raise e, World (store w) (calls w ++ [Call_teiid b])).
Proof.
  intros (Hpass & r & root & s & Hr & Ht & Hparse & Hfind & Htext & Hne) Hnvr.
  assert (H : process_build S event bd w
              = (Raise e, World (store w) (calls w ++ [Call_teiid b]))).
  { rewrite (process_build_after_filter _ _ _ _ _ Hpass).
    rewrite (bind_ok _ _ _ _ _ (get_koji_task_result_value _ _ _ w Hr)).
    rewrite Ht. simpl. rewrite (bind_lift_val _ _ _ _ Hparse).
    assert (He : forall w', extract_build_id root w' = (Ok (Some t), w' : world G)).
    { intros w'. unfold extract_build_id, try_except. rewrite Hfind. simpl.
      rewrite Htext. reflexivity. }
    rewrite (bind_ok _ _ _ _ _ (He _)). simpl.
    destruct (String.eqb_spec t ""); [contradiction|]. simpl.
    apply bind_lift_exc. exact Hnvr. }
  split; [exact H|]. intros rest. simpl. apply bind_raise. exact H.
Qed.

(** X5. A task whose [result] column is falsy (null, or the empty text) is
    passed over without the result being parsed: whatever the parser would
    do with it, the build entry returns normally with the store as it was. *)
Theorem falsy_task_result_is_skipped (event : nat) (bd b r : pyval) (w : world G) :
  passes_filter bd b ->
  task_result_is S b r ->
  py_truthy r = false ->
  process_build S event bd w = (Ok tt, World (store w) (calls w ++ [Call_teiid b])) /\
  forall rest, for_each (bd :: rest) (process_build S event) w
               = for_each rest (process_build S event)
                          (World (store w) (calls w ++ [Call_teiid b])).
Proof.
  intros Hpass Hr Ht.
  assert (H : process_build S event bd w
              = (Ok tt, World (store w) (calls w ++ [Call_teiid b]))).
  { rewrite (process_build_after_filter _ _ _ _ _ Hpass).
    rewrite (bind_ok _ _ _ _ _ (get_koji_task_result_value _ _ _ w Hr)).
    rewrite Ht. reflexivity. }
  split; [exact H|]. intros rest. apply for_each_skip. exact H.
Qed.

(** X6. [get_koji_task_result] makes one Teiid call and leaves the store
    alone; it never raises [IndexError] or [KeyError], not even when the
    Teiid client itself raises one of them, in which case it returns [None];
    every other exception of the client passes through. *)
Theorem get_koji_task_result_swallows_lookup_errors (task_id : pyval) (w : world G) :
  exists o,
    get_koji_task_result S task_id w = (o, World (store w) (calls w ++ [Call_teiid task_id])) /\
    o <> Raise IndexError /\ o <> Raise KeyError /\ o <> OutOfFuel /\
    (forall e, teiid_query S task_id = Exc e ->
               o = if bool_decide (e = IndexError) || bool_decide (e = KeyError)
                   then Ok PNone else Raise e).
Proof.
  unfold get_koji_task_result, try_except, bind. rewrite call_ext_eq.
  destruct (teiid_query S task_id) as [rows|e]; cbn [fst snd].
  - unfold lift. destruct (py_getitem0 rows) as [row|e] eqn:E0.
    + destruct (py_getitem row "result") as [r|e] eqn:E1.
      * eexists. split; [reflexivity|]. repeat split; try discriminate.
      * destruct (py_getitem_Exc _ _ _ E1) as [-> | ->]; simpl;
          (eexists; split; [reflexivity|]; repeat split; discriminate).
    + destruct e; simpl; (eexists; split; [reflexivity|]; repeat split; discriminate).
  - destruct e; simpl;
      (eexists; split; [reflexivity|]; repeat split; try discriminate;
       intros e' [= <-]; reflexivity).
Qed.

(** X9. Whatever the services do and however it ends, handling one build
    entry makes at most one Teiid lookup, at most two create-or-update
    calls and at most one connect, six calls at most in all. *)
Theorem build_entry_call_bounds (event : nat) (bd : pyval) (w : world G) :
  let l := calls_since w (process_build S event bd w).2 in
  (count is_teiid l <= 1)%nat /\
  (count (is_create_or_update ContainerKojiBuild) l <= 2)%nat /\
  (count is_connect l <= 1)%nat /\
  (List.length l <= 6)%nat.
Proof.
  assert (Hup : forall p i w0, exists l,
             calls (upsert_container_build S p i w0).2 = calls w0 ++ l /\
             count is_teiid l = 0%nat /\ count is_connect l = 0%nat /\
             (count (is_create_or_update ContainerKojiBuild) l <= 2)%nat /\
             (List.length l <= 4)%nat).
  { intros p i w0. unfold upsert_container_build, try_except. rewrite call_store_eq.
    destruct (create_or_update S ContainerKojiBuild p (store w0)) as [[x|e] g1]; cbn [fst snd].
    - eexists. split; [reflexivity|]. unfold count. simpl. repeat split; lia.
    - destruct (bool_decide (e = ConstraintValidationFailed)).
      + unfold bind. rewrite call_store_eq. cbn [store calls].
        destruct (get_or_none S KojiBuild i g1) as [[[n|]|e'] g2]; cbn [fst snd].
        * rewrite call_store_eq. cbn [store calls].
          destruct (add_label S n (label_of ContainerKojiBuild) g2) as [[[]|e'] g3]; cbn [fst snd].
          -- rewrite call_store_eq. cbn [store calls snd]. rewrite <- !app_assoc.
             eexists. split; [reflexivity|]. unfold count. simpl. repeat split; lia.
          -- rewrite <- !app_assoc. eexists. split; [reflexivity|].
             unfold count. simpl. repeat split; lia.
        * unfold raise. cbn [snd calls]. rewrite <- !app_assoc.
          eexists. split; [reflexivity|]. unfold count. simpl. repeat split; lia.
        * rewrite <- !app_assoc. eexists. split; [reflexivity|].
          unfold count. simpl. repeat split; lia.
      + eexists. split; [reflexivity|]. unfold count. simpl. repeat split; lia. }
  assert (Hmain : exists l,
             calls (process_build S event bd w).2 = calls w ++ l /\
             (count is_teiid l <= 1)%nat /\
             (count (is_create_or_update ContainerKojiBuild) l <= 2)%nat /\
             (count is_connect l <= 1)%nat /\ (List.length l <= 6)%nat).
  { assert (Hnil : exists l,
               calls w = calls w ++ l /\
               (count is_teiid l <= 1)%nat /\
               (count (is_create_or_update ContainerKojiBuild) l <= 2)%nat /\
               (count is_connect l <= 1)%nat /\ (List.length l <= 6)%nat).
    { exists []. split; [symmetry; apply app_nil_r|]. unfold count. simpl. repeat split; lia. }
    assert (Hone : forall t, exists l,
               calls w ++ [Call_teiid t] = calls w ++ l /\
               (count is_teiid l <= 1)%nat /\
               (count (is_create_or_update ContainerKojiBuild) l <= 2)%nat /\
               (count is_connect l <= 1)%nat /\ (List.length l <= 6)%nat).
    { intros t. exists [Call_teiid t]. split; [reflexivity|].
      unfold count. simpl. repeat split; lia. }
    unfold process_build. unfold bind at 1.
    assert (Hlf : forall w0 : world G, (faulty_build bd w0).2 = w0).
    { intros w0. unfold faulty_build, bind, lift, ret.
      destruct (py_getitem bd "build_id") as [x|]; [|reflexivity].
      destruct (negb (py_truthy x)); [reflexivity|]. destruct (py_int x); reflexivity. }
    destruct (faulty_build bd w) as [[[|]|e|] w0] eqn:Efb;
      pose proof (Hlf w) as Hw0; rewrite Efb in Hw0; simpl in Hw0; subst w0;
      try exact Hnil.
    cbv beta iota.
    destruct (py_getitem bd "build_id") as [b|e] eqn:Eb;
      [rewrite (bind_lift_val _ b) by reflexivity
      |rewrite (bind_lift_exc _ e) by reflexivity; exact Hnil].
    unfold bind at 1.
    destruct (get_koji_task_result_world S b w) as [o Ho]. rewrite Ho.
    destruct o as [r|e|]; try apply Hone.
    destruct (negb (py_truthy r)); [apply Hone|]. cbv beta iota.
    destruct (ET_fromstring S r) as [root|e];
      [rewrite (bind_lift_val _ root) by reflexivity
      |rewrite (bind_lift_exc _ e) by reflexivity; apply Hone].
    unfold bind at 1.
    assert (Hex : forall w0 : world G, exists t, extract_build_id root w0 = (Ok t, w0)).
    { intros w0. unfold extract_build_id, try_except.
      destruct (find_koji_builds_string root); eexists; reflexivity. }
    destruct (Hex (World (store w) (calls w ++ [Call_teiid b]))) as [t Ht]. rewrite Ht.
    destruct (negb (text_truthy t)); [apply Hone|]. cbv beta iota zeta.
    destruct (py_getitem bd "original_nvr") as [nvr|e];
      [rewrite (bind_lift_val _ nvr) by reflexivity
      |rewrite (bind_lift_exc _ e) by reflexivity; apply Hone].
    unfold bind.
    match goal with
    | |- context [upsert_container_build S ?p ?i ?w0] =>
        destruct (Hup p i w0) as (l & Hl & Ht0 & Hc0 & Hu & Hlen);
        destruct (upsert_container_build S p i w0) as [[build|e|] w1]
    end; cbn [snd calls] in Hl.
    - rewrite call_store_eq. cbn [snd calls].
      exists ([Call_teiid b] ++ l ++ [Call_connect triggered_container_builds event build]).
      split; [rewrite Hl, <- !app_assoc; reflexivity|].
      unfold count in *. rewrite ?filter_app, ?length_app. simpl.
      rewrite ?length_app. simpl. repeat split; lia.
    - cbn [snd]. exists ([Call_teiid b] ++ l).
      split; [rewrite Hl, <- !app_assoc; reflexivity|].
      unfold count in *. rewrite ?filter_app, ?length_app. simpl. repeat split; lia.
    - cbn [snd]. exists ([Call_teiid b] ++ l).
      split; [rewrite Hl, <- !app_assoc; reflexivity|].
      unfold count in *. rewrite ?filter_app, ?length_app. simpl. repeat split; lia. }
  destruct Hmain as (l & Hl & Hb). intros l'. subst l'.
  rewrite (calls_since_app _ _ _ Hl). exact Hb.
Qed.
End BuildEdges.

Lemma scenario_build_resolves :
  resolves_to scenario_services (build_record (PInt 101) "pkg-1.0-1") (PInt 101) "55".
Proof.
  split; [exact scenario_build_passes_filter|].
  assert (E : exists root, read_document task_result_55 = Some root)
    by (eexists; vm_compute; reflexivity).
  destruct E as [root E].
  assert (F : exists s, find_koji_builds_string root = Some s /\ e_text s = Some "55").
  { vm_compute in E. injection E as <-. eexists. split; vm_compute; reflexivity. }
  destruct F as (s & Hfind & Htext).
  exists (PStr task_result_55), root, s.
  split; [eexists _, _; repeat split; reflexivity|]. split; [reflexivity|].
  split; [change (xml_fromstring (PStr task_result_55) = Val root);
          unfold xml_fromstring; rewrite E; reflexivity|].
  split; [exact Hfind|]. split; [exact Htext | discriminate].
Qed.

Lemma build_without_original_nvr_is_fatal_witness :
  process_build scenario_services 0%nat build_without_nvr start
  = (Raise KeyError, World empty_graph [Call_teiid (PInt 101)]).
Proof.
  refine (proj1 (build_without_original_nvr_is_fatal scenario_services 0%nat build_without_nvr
                   (PInt 101) "55" KeyError start _ _)).
  - destruct scenario_build_resolves as [_ H]. split; [|exact H].
    split; [reflexivity|]. split; [reflexivity|]. exists 101. split; [reflexivity | lia].
  - reflexivity.
Defined.

Lemma falsy_task_result_is_skipped_witness :
  process_build empty_result_services 0%nat (build_record (PInt 101) "pkg-1.0-1") start
  = (Ok tt, World empty_graph [Call_teiid (PInt 101)]).
Proof.
  refine (proj1 (falsy_task_result_is_skipped empty_result_services 0%nat _ (PInt 101)
                   (PStr "") start scenario_build_passes_filter _ _)).
  - eexists _, _. repeat split; reflexivity.
  - reflexivity.
Defined.

(* ===================================================================== *)
(** ** The path query and the trace of a build that is written *)
(* ===================================================================== *)

(** A field has a child, so that an element whose children are all leaves
    has no field below it. *)
Lemma no_field_below_leaves name root m :
  (forall c, c ∈ e_children root -> e_children c = []) ->
  descendant m root -> ~ is_field name m.
Proof.
  intros Hleaves Hm (c & Hc & _).
  destruct Hm as [m root Hm | m c' root Hc' Hm].
  - rewrite (Hleaves m Hm) in Hc. inversion Hc.
  - specialize (Hleaves c' Hc').
    destruct Hm as [m c' Hm | m c'' c' Hc'' _].
    + rewrite Hleaves in Hm. inversion Hm.
    + rewrite Hleaves in Hc''. inversion Hc''.
Qed.

(** X7. The lookup of lines 84-87 never raises and leaves the store and
    the call log alone; its result is a text or nothing.  The path looks
    for a [koji_builds] field strictly below the root of the document and
    for a [string] element strictly below that field: when there is such an
    element the result is the text of one of them, and when there is none
    the result is nothing.  The root is never taken as the field: a
    document whose root has only leaves below it gives nothing, whatever
    the root holds. *)
Theorem extract_build_id_total {G : Type} (root : element) (w : world G) :
  exists o,
    extract_build_id root w = (Ok o, w) /\
    ((exists m s, descendant m root /\ is_field "koji_builds" m /\
                  descendant s m /\ e_tag s = "string") ->
     exists m s, descendant m root /\ is_field "koji_builds" m /\
                 descendant s m /\ e_tag s = "string" /\ o = e_text s) /\
    ((forall m s, descendant m root -> is_field "koji_builds" m ->
                  descendant s m -> e_tag s <> "string") -> o = None) /\
    ((forall c, c ∈ e_children root -> e_children c = []) -> o = None).
Proof.
  assert (Hnone : (forall m s, descendant m root -> is_field "koji_builds" m ->
                               descendant s m -> e_tag s <> "string") ->
                  find_koji_builds_string root = None).
  { intros Hall. destruct (find_koji_builds_string root) as [s|] eqn:E; [|reflexivity].
    apply find_koji_builds_string_Some in E. destruct E as (m & Hm & Hf & Hs & Htag).
    destruct (Hall m s Hm Hf Hs Htag). }
  exists (find_koji_builds_string root ≫= e_text). split; [|split; [|split]].
  - unfold extract_build_id, try_except.
    destruct (find_koji_builds_string root); reflexivity.
  - intros (m & s & Hm & Hf & Hs & Htag).
    destruct (find_koji_builds_string root) as [s'|] eqn:E.
    + apply find_koji_builds_string_Some in E. destruct E as (m' & Hm' & Hf' & Hs' & Htag').
      exists m', s'. repeat (split; [assumption|]). reflexivity.
    + exfalso.
      assert (Hin : s ∈ select_descendant "string"
                        (select_self (select_tag_text "name" "koji_builds"
                           (select_descendant "*" (select_self [root]))))).
      { unfold select_self. eapply descendant_elem_of_select; [|exact Hs|].
        - apply is_field_elem_of_select; [|exact Hf].
          eapply descendant_elem_of_select;
            [apply list_elem_of_singleton; reflexivity | exact Hm | reflexivity].
        - unfold tag_matches. rewrite Htag. reflexivity. }
      unfold find_koji_builds_string in E.
      destruct (select_descendant "string" _) as [|x l]; [inversion Hin | discriminate].
  - intros Hall. rewrite (Hnone Hall). reflexivity.
  - intros Hleaves. rewrite Hnone; [reflexivity|].
    intros m s Hm Hf. destruct (no_field_below_leaves _ _ _ Hleaves Hm Hf).
Qed.

(** A document whose root is itself a [koji_builds] field with a [string]
    entry: the lookup gives nothing. *)
Lemma extract_build_id_total_witness :
  is_field "koji_builds" root_field_document /\
  exists o, extract_build_id root_field_document start = (Ok o, start) /\ o = None.
Proof.
  split.
  - eexists. split; [apply list_elem_of_here|]. split; reflexivity.
  - destruct (extract_build_id_total root_field_document start) as (o & Ho & _ & _ & Hleaves).
    exists o. split; [exact Ho|]. apply Hleaves. intros c Hc. simpl in Hc.
    repeat (apply elem_of_cons in Hc; destruct Hc as [-> | Hc]; [reflexivity|]).
    inversion Hc.
Defined.

Section BuildWritten.
Context {G : Type} (S : services G).

(** X8. For a build entry whose task resolves to the identity [t] and whose
    create-or-update goes through at once, the calls made are, in this
    order, the Teiid lookup of the task, the create-or-update of a
    [ContainerKojiBuild] with [id_] the text [t] and the [original_nvr] of
    the entry, and the connect of the event to the node that call returned;
    the result is that of the connect. *)
Theorem resolved_build_is_upserted_then_connected
        (event build : nat) (bd b nvr : pyval) (t : string) (w : world G)
        (g1 g2 : G) (r : res unit) :
  resolves_to S bd b t ->
  py_getitem bd "original_nvr" = Val nvr ->
  create_or_update S ContainerKojiBuild [("id_", PStr t); ("original_nvr", nvr)] (store w)
  = (Val build, g1) ->
  connect S triggered_container_builds event build g1 = (r, g2) ->
  process_build S event bd w
  = (match r with Val _ => Ok tt | Exc e => Raise e end,
     World g2 (calls w ++
               [Call_teiid b;
                Call_create_or_update ContainerKojiBuild
                                      [("id_", PStr t); ("original_nvr", nvr)];
                Call_connect triggered_container_builds event build])).
Proof.
  intros Hres Hnvr Hup Hconn.
  rewrite (process_build_at_upsert S event bd b nvr t w Hres Hnvr).
  unfold bind, upsert_container_build, try_except.
  rewrite call_store_eq. cbn [store calls]. rewrite Hup. cbn [fst snd].
  rewrite call_store_eq. cbn [store calls]. rewrite Hconn. cbn [fst snd].
  rewrite <- !app_assoc. destruct r as [[]|e]; reflexivity.
Qed.
End BuildWritten.

Lemma resolved_build_is_upserted_then_connected_witness :
  process_build scenario_services 0%nat (build_record (PInt 101) "pkg-1.0-1")
                (World (Graph [Node ["FreshmakerEvent"] "42" ∅] []) [])
  = (Ok tt,
     World (Graph [Node ["FreshmakerEvent"] "42" ∅;
                   Node ["KojiBuild"; "ContainerKojiBuild"] "55"
                        {[ "original_nvr" := PStr "pkg-1.0-1" ]}]
                  [(triggered_container_builds, 0%nat, 1%nat)])
           [Call_teiid (PInt 101);
            Call_create_or_update ContainerKojiBuild scenario_build_params;
            Call_connect triggered_container_builds 0 1]).
Proof.
  apply (resolved_build_is_upserted_then_connected scenario_services 0%nat 1%nat
           (build_record (PInt 101) "pkg-1.0-1") (PInt 101) (PStr "pkg-1.0-1") "55"
           (World (Graph [Node ["FreshmakerEvent"] "42" ∅] []) [])
           (Graph [Node ["FreshmakerEvent"] "42" ∅;
                   Node ["KojiBuild"; "ContainerKojiBuild"] "55"
                        {[ "original_nvr" := PStr "pkg-1.0-1" ]}] [])
           _ (Val tt) scenario_build_resolves); reflexivity.
Defined.

(* ===================================================================== *)
(** ** Edge cases of the paging loop *)
(* ===================================================================== *)

Section PagingEdges.
Context {G : Type} (S : services G).

(** One turn of the loop, with the page's items and its [next] read apart. *)
Lemma scrape_from_step (fuel : nat) (u : pyval) (evs : list pyval) (w : world G) :
  page_items S u = Val evs ->
  scrape_from S (Datatypes.S fuel) u w =
  bind (for_each evs (process_event S))
       (fun _ =>
          match page_next S u with
          | Val next =>
              if py_truthy next then
                match session_get_json S u with
                | Val rv_json =>
                    meta' <- lift (py_getitem rv_json "meta") ;;
                    fm_url' <- lift (py_getitem meta' "next") ;;
                    scrape_from S fuel fm_url'
                | Exc e => raise e
                end
              else ret tt
          | Exc e => raise e
          end)
       (World (store w) (calls w ++ [Call_get u])).
Proof.
  unfold page_items, page_next. intros H. simpl scrape_from.
  rewrite bind_call_ext.
  destruct (session_get_json S u) as [rv|e]; [|discriminate].
  destruct (py_getitem rv "items") as [items|e] eqn:Ei; [|discriminate].
  rewrite (bind_lift_val _ items) by reflexivity.
  rewrite (bind_lift_val _ evs) by exact H.
  apply bind_ext. intros _ w1.
  destruct (py_getitem rv "meta") as [meta|e] eqn:Em; [|reflexivity].
  rewrite (bind_lift_val _ meta) by reflexivity.
  destruct (py_get meta "next") as [next|e]; reflexivity.
Qed.

(** X10. A page that cannot be fetched, that has no [items], or whose
    [items] cannot be walked over, ends the run with that exception right
    after the fetch: nothing is written, and one fetch is logged. *)
Theorem unreadable_page_is_fatal (fuel : nat) (u : pyval) (e : exn) (w : world G) :
  page_items S u = Exc e ->
  scrape_from S (Datatypes.S fuel) u w = (Raise e, World (store w) (calls w ++ [Call_get u])).
Proof.
  unfold page_items. intros H. simpl scrape_from. rewrite bind_call_ext.
  destruct (session_get_json S u) as [rv|e']; [|injection H as <-; reflexivity].
  destruct (py_getitem rv "items") as [items|e'] eqn:Ei.
  - rewrite (bind_lift_val _ items) by reflexivity. apply bind_lift_exc. exact H.
  - injection H as <-. apply bind_lift_exc. reflexivity.
Qed.

(** X11. The [meta] of a page is read after its items were processed: when
    it cannot be read (no [meta], or a [meta] that is no object), the run
    ends with that exception in the world the events of the page left, so
    that what they wrote stays written. *)
Theorem unreadable_meta_is_fatal_after_the_items
        (fuel : nat) (u : pyval) (evs : list pyval) (e : exn) (w w1 : world G) :
  page_items S u = Val evs ->
  page_next S u = Exc e ->
  for_each evs (process_event S) (World (store w) (calls w ++ [Call_get u])) = (Ok tt, w1) ->
  scrape_from S (Datatypes.S fuel) u w = (Raise e, w1).
Proof.
  intros Hitems Hnext Hfor. rewrite (scrape_from_step fuel u evs w Hitems).
  rewrite (bind_ok _ _ _ _ _ Hfor). rewrite Hnext. reflexivity.
Qed.

(** X12. An exception raised while an event is processed ends the run with
    that exception, in the world reached at that point: the events that
    follow on the page are not processed, no further page is fetched, and
    what the events before it wrote stays written. *)
Theorem event_exception_ends_the_run
        (fuel : nat) (u : pyval) (pre post : list pyval) (ev : pyval) (e : exn)
        (w w1 w2 : world G) :
  page_items S u = Val (pre ++ ev :: post) ->
  for_each pre (process_event S) (World (store w) (calls w ++ [Call_get u])) = (Ok tt, w1) ->
  process_event S ev w1 = (Raise e, w2) ->
  scrape_from S (Datatypes.S fuel) u w = (Raise e, w2) /\
  fetched (calls_since w w2) = [u].
Proof.
  intros Hitems Hpre Hev. split.
  - rewrite (scrape_from_step fuel u _ w Hitems). apply bind_raise.
    eapply for_each_raise; eassumption.
  - assert (H1 : logs_no_fetch (World (store w) (calls w ++ [Call_get u])) w1).
    { eapply (respects_for_each logs_no_fetch); [apply logs_no_fetch_refl
        | apply logs_no_fetch_trans | intros x; apply process_event_logs_no_fetch | exact Hpre]. }
    pose proof (process_event_logs_no_fetch S ev _ _ _ Hev) as H2.
    destruct H1 as (l1 & Hl1 & F1), H2 as (l2 & Hl2 & F2). simpl in Hl1.
    rewrite (calls_since_app w w2 ([Call_get u] ++ l1 ++ l2))
      by (rewrite Hl2, Hl1, <- !app_assoc; reflexivity).
    rewrite !fetched_app, (fetched_no_fetch _ F1), (fetched_no_fetch _ F2). reflexivity.
Qed.

(** X13. The loop has no guard against a page that names itself as the
    page that follows: on such a feed the run never completes, whatever the
    fuel; it ends for want of fuel or with an exception of an event. *)
Theorem self_naming_page_never_completes (fuel : nat) (u : pyval) (w : world G) :
  names_itself S u ->
  (scrape_from S fuel u w).1 <> Ok tt.
Proof.
  intros (d & items & meta & Hget & Hitems & Hmeta & Hnext & Htruthy).
  revert w. induction fuel as [|fuel IH]; intros w; [discriminate|].
  assert (Hi : page_items S u = Val items).
  { unfold page_items. rewrite Hget. simpl. rewrite Hitems. reflexivity. }
  assert (Hn : page_next S u = Val u).
  { unfold page_next. rewrite Hget. simpl. rewrite Hmeta. simpl. rewrite Hnext. reflexivity. }
  rewrite (scrape_from_step fuel u items w Hi). unfold bind at 1.
  destruct (for_each items (process_event S) _) as [[[]|e|] w1]; [|discriminate..].
  rewrite Hn, Htruthy, Hget.
  assert (Hm1 : py_getitem (PDict d) "meta" = Val (PDict meta))
    by (simpl; rewrite Hmeta; reflexivity).
  assert (Hm2 : py_getitem (PDict meta) "next" = Val u)
    by (simpl; rewrite Hnext; reflexivity).
  rewrite (bind_lift_val _ _ _ _ Hm1), (bind_lift_val _ _ _ _ Hm2). apply IH.
Qed.

Lemma bind_fuel {A B} (m : M G A) (k1 k2 : A -> M G B) (w : world G) :
  (bind m k1 w).1 <> OutOfFuel ->
  (forall a w1, (k1 a w1).1 <> OutOfFuel -> k2 a w1 = k1 a w1) ->
  bind m k2 w = bind m k1 w.
Proof.
  unfold bind. destruct (m w) as [[a|e|] w1]; intros H Hk; [apply Hk, H | reflexivity..].
Qed.

(** The fuel is a device of the embedding and only bounds the number of
    pages: a run that does not end for want of fuel ends in the same way,
    in the same world, with any larger fuel. *)
Lemma scrape_from_more_fuel (n m : nat) (u : pyval) (w : world G) :
  (scrape_from S n u w).1 <> OutOfFuel ->
  (n <= m)%nat ->
  scrape_from S m u w = scrape_from S n u w.
Proof.
  revert m u w. induction n as [|n IH]; intros m u w Hn Hle.
  - exfalso. apply Hn. reflexivity.
  - destruct m as [|m]; [lia|]. revert Hn. simpl scrape_from. intros Hn.
    repeat (apply bind_fuel; [exact Hn|]; clear Hn; intros ? ? Hn).
    destruct (py_truthy _); [|reflexivity].
    repeat (apply bind_fuel; [exact Hn|]; clear Hn; intros ? ? Hn).
    apply IH; [exact Hn | lia].
Qed.
End PagingEdges.

Lemma unreadable_page_is_fatal_witness :
  scrape_from no_items_services 1 (PStr freshmaker_url) start
  = (Raise KeyError, World empty_graph [Call_get (PStr freshmaker_url)]).
Proof.
  apply (unreadable_page_is_fatal no_items_services 0 (PStr freshmaker_url) KeyError start).
  reflexivity.
Defined.

Lemma unreadable_meta_is_fatal_after_the_items_witness :
  (scrape_from no_meta_services 1 (PStr freshmaker_url) start).1 = Raise KeyError /\
  map n_id (nodes (store (scrape_from no_meta_services 1 (PStr freshmaker_url) start).2))
  = ["42"; "7"; "55"].
Proof.
  rewrite (unreadable_meta_is_fatal_after_the_items no_meta_services 0 (PStr freshmaker_url)
             [scenario_event] KeyError start
             (for_each [scenario_event] (process_event no_meta_services)
                       (World empty_graph [Call_get (PStr freshmaker_url)])).2);
    [split; [reflexivity | vm_compute; reflexivity] | reflexivity | reflexivity
    | vm_compute; reflexivity].
Defined.

Lemma event_exception_ends_the_run_witness :
  (scrape_from aborting_services 1 (PStr freshmaker_url) start).1 = Raise TypeError /\
  map n_id (nodes (store (scrape_from aborting_services 1 (PStr freshmaker_url) start).2))
  = ["1"; "7"].
Proof.
  rewrite (proj1 (event_exception_ends_the_run aborting_services 0 (PStr freshmaker_url)
             [event_record (PInt 1) (PStr "7") []] [event_record (PInt 3) (PStr "8") []]
             event_with_null_key TypeError start
             (for_each [event_record (PInt 1) (PStr "7") []] (process_event aborting_services)
                       (World empty_graph [Call_get (PStr freshmaker_url)])).2
             (for_each [event_record (PInt 1) (PStr "7") []] (process_event aborting_services)
                       (World empty_graph [Call_get (PStr freshmaker_url)])).2
             eq_refl ltac:(vm_compute; reflexivity) ltac:(vm_compute; reflexivity))).
  split; [reflexivity | vm_compute; reflexivity].
Defined.

Lemma looping_page_names_itself : names_itself looping_services (PStr "page").
Proof. eexists _, _, _. repeat split; reflexivity. Qed.

Lemma self_naming_page_never_completes_witness :
  (scrape_from looping_services 5 (PStr "page") start).1 <> Ok tt /\
  fetched (calls (scrape_from looping_services 5 (PStr "page") start).2)
  = replicate 5 (PStr "page").
Proof.
  split.
  - apply (self_naming_page_never_completes looping_services 5 (PStr "page") start).
    exact looping_page_names_itself.
  - vm_compute. reflexivity.
Defined.
